(** * Park-Net parking lottery: a shallow embedding of
      [app/modules/sorteo/service.py] and the properties of its allocation
      engine.

    The development follows the source module by module: the Python
    built-ins the service relies on ([int], [str.split], zero-padded
    f-strings, [list.sort], [itertools.groupby], [random.shuffle]), the
    pydantic models, the generic repository of [app/shared/repository.py],
    and finally [LotteryService] itself. *)

From Stdlib Require Import ZArith String Ascii List Decimal DecimalString DecimalN.
From Stdlib Require Import Permutation Sorted Lia.
From stdpp Require Import base option list gmap sets strings.

Local Open Scope string_scope.
Local Open Scope list_scope.
Local Open Scope Z_scope.

(** ** Python built-ins *)

Module Py.

(** Decimal digits of a natural number, as [str(n)] prints them. *)
Definition digits (n : N) : string := NilEmpty.string_of_uint (N.to_uint n).

Fixpoint zeros (k : nat) : string :=
  match k with
  | O => ""
  | S k' => String "0" (zeros k')
  end.

(** Left padding with ["0"] up to [width] characters. *)
Definition zfill (width : nat) (s : string) : string :=
  zeros (width - String.length s) +:+ s.

(** [f"{n:0{width}d}"]: sign-aware zero padding, the sign counts in the
    width. *)
Definition format_0d (width : nat) (n : Z) : string :=
  if n <? 0
  then String "-" (zfill (width - 1) (digits (Z.to_N (- n))))
  else zfill width (digits (Z.to_N n)).

(** [int(s)] on a non-empty string of ASCII decimal digits, the form the
    two halves of a period written as [YYYY-MM] have.  Every other string
    gives [None]: Python raises [ValueError] on most of them, and reads a
    few more (signs, surrounding blanks, underscores, decimal digits of
    other scripts), which the development leaves out. *)
Definition int (s : string) : option Z :=
  match s with
  | "" => None
  | _ => (fun d => Z.of_N (N.of_uint d)) <$> NilEmpty.uint_of_string s
  end.

(** [s.split(sep)] for a one-character separator. *)
Fixpoint split (sep : ascii) (s : string) : list string :=
  match s with
  | "" => [""]
  | String c rest =>
      if Ascii.eqb c sep then "" :: split sep rest
      else match split sep rest with
           | [] => [String c ""]
           | h :: t => String c h :: t
           end
  end.

(** [range(n)]: empty when [n <= 0]. *)
Definition range (n : Z) : list Z := Z.of_nat <$> seq 0 (Z.to_nat n).

(** Truth value of an [Optional[str]]: [None] and the empty string are
    falsy. *)
Definition truthy (o : option string) : bool :=
  match o with
  | Some (String _ _) => true
  | _ => false
  end.

(** *** [list.sort(key=..., reverse=True)]: a stable sort, descending in the
    key; elements with equal keys keep their relative order. *)
Section Sort.
Context {A : Type} (key : A → Z).

Fixpoint insert_desc (x : A) (l : list A) : list A :=
  match l with
  | [] => [x]
  | y :: l' => if key x <? key y then y :: insert_desc x l' else x :: y :: l'
  end.

Definition sort_desc (l : list A) : list A := foldr insert_desc [] l.

(** *** [itertools.groupby(l, key)]: maximal runs of consecutive elements
    with the same key. *)
Fixpoint groupby (l : list A) : list (Z * list A) :=
  match l with
  | [] => []
  | x :: l' =>
      match groupby l' with
      | (k, g) :: gs =>
          if key x =? k then (k, x :: g) :: gs
          else (key x, [x]) :: (k, g) :: gs
      | [] => [(key x, [x])]
      end
  end.
End Sort.

(** *** [random.shuffle]

    The generator state is the sequence of raw draws still to come;
    [randbelow n] consumes one draw and reduces it into [0, n). *)
Definition Random := list nat.

Definition randbelow (n : nat) (g : Random) : nat * Random :=
  match g with
  | [] => (O, [])
  | r :: g' => (r `mod` n, g')%nat
  end.

(** [x[i], x[j] = x[j], x[i]] *)
Definition swap {A} (i j : nat) (x : list A) : list A :=
  match x !! i, x !! j with
  | Some a, Some b => <[j:=a]> (<[i:=b]> x)
  | _, _ => x
  end.

(** [for i in reversed(range(1, len(x))): j = randbelow(i + 1); swap] *)
Fixpoint shuffle_from {A} (i : nat) (x : list A) (g : Random) : list A * Random :=
  match i with
  | O => (x, g)
  | S i' =>
      let '(j, g') := randbelow (S i) g in
      shuffle_from i' (swap i j x) g'
  end.

Definition shuffle {A} (x : list A) (g : Random) : list A * Random :=
  shuffle_from (length x - 1) x g.

End Py.

(** ** Pydantic models

    Documents are taken as the repository hands them out: validated model
    instances whose [id] is the string form of the stored [_id]. *)

Inductive VehicleType := automovil | motocicleta.

#[global] Instance VehicleType_eq_dec : EqDecision VehicleType.
Proof. solve_decision. Defined.

(** The string a [Literal["automovil", "motocicleta"]] value formats to. *)
Definition VehicleType_str (v : VehicleType) : string :=
  match v with
  | automovil => "automovil"
  | motocicleta => "motocicleta"
  end.

Inductive RequestStatus := pending | accepted | rejected.

#[global] Instance RequestStatus_eq_dec : EqDecision RequestStatus.
Proof. solve_decision. Defined.

(** [app/modules/solicitudes/models.py] *)
Module Request.
Record t := mk {
  id : string;
  user_id : string;
  resident_cc : string;
  resident_full_name : string;
  vehicle_type : VehicleType;
  license_plate : string;
  description : option string;
  disability : bool;
  pay : bool;
  status : RequestStatus;
  lottery_period : string;
  created_at : Z;
  updated_at : Z
}.
End Request.

(** [app/modules/residentes/models.py]; [vehicle_slots] is not read by the
    lottery and is left out. *)
Module User.
Record t := mk {
  id : string;
  full_name : string;
  cc : string;
  email : string;
  hashed_password : string;
  apartment : string;
  phone_number : string
}.
End User.

(** [app/modules/sorteo/models.py] *)
Module LotteryParticipantResult.
Record t := mk {
  user_id : string;
  cc : string;
  full_name : string;
  apartment : string;
  vehicle_type : VehicleType;
  license_plate : string;
  spot : option string;
  request_id : string
}.
End LotteryParticipantResult.

Module LotteryResult.
Record t := mk {
  id : option string;
  period : string;
  total_car_spots_offered : Z;
  total_moto_spots_offered : Z;
  winners : list LotteryParticipantResult.t;
  non_winners : list LotteryParticipantResult.t;
  executed_at : Z
}.
End LotteryResult.

(** [app/modules/sorteo/schemas.py] *)
Module LotteryCreate.
Record t := mk {
  period : string;
  num_car_spots : Z;
  num_moto_spots : Z
}.
End LotteryCreate.

(** *** Field constraints

    [period] carries [min_length=7, max_length=7, pattern=^\d{4}-\d{2}$],
    the spot counts carry [ge=0].  The development reads periods as they
    are written in ASCII: [period_pattern] holds of four ASCII digits, a
    dash and two ASCII digits.  The validator's [\d] also admits the
    decimal digits of other scripts; a period written with them is outside
    [period_pattern], and the statements below say nothing of it. *)
Definition is_digit (c : ascii) : bool :=
  (48 <=? nat_of_ascii c)%nat && (nat_of_ascii c <=? 57)%nat.

(** A string made of ASCII decimal digits only. *)
Fixpoint all_digits (s : string) : bool :=
  match s with
  | "" => true
  | String c r => is_digit c && all_digits r
  end.

Definition period_pattern (s : string) : bool :=
  match s with
  | String y1 (String y2 (String y3 (String y4 (String d (String m1 (String m2 "")))))) =>
      is_digit y1 && is_digit y2 && is_digit y3 && is_digit y4 &&
      Ascii.eqb d "-" && is_digit m1 && is_digit m2
  | _ => false
  end.

Definition LotteryCreate_valid (d : LotteryCreate.t) : bool :=
  period_pattern (LotteryCreate.period d) &&
  (0 <=? LotteryCreate.num_car_spots d) &&
  (0 <=? LotteryCreate.num_moto_spots d).

(** ** Errors the service can raise *)

Inductive Error :=
| HTTP_409_CONFLICT (period : string) (existing_id : option string)
| ValueError
| ValidationError
| OverflowError.

Inductive Result (A : Type) :=
| Ok (a : A)
| Raise (e : Error).
Arguments Ok {A} a.
Arguments Raise {A} e.

(** Constructing a [LotteryResult] runs the field validators. *)
Definition LotteryResult_new (period : string) (cars motos : Z)
    (winners non_winners : list LotteryParticipantResult.t) (executed_at : Z)
  : Result LotteryResult.t :=
  if period_pattern period && (0 <=? cars) && (0 <=? motos)
  then Ok (LotteryResult.mk None period cars motos winners non_winners executed_at)
  else Raise ValidationError.

(** ** [app/shared/repository.py]

    A collection is the list of its documents in natural (insertion) order;
    a query is the predicate it denotes. *)

(** [bson.ObjectId(s)] on a string: 24 hexadecimal digits, which [str]
    prints back in lower case; any other string is [InvalidId], rendered as
    [None]. *)
Definition is_hex (c : ascii) : bool :=
  is_digit c
  || ((97 <=? nat_of_ascii c)%nat && (nat_of_ascii c <=? 102)%nat)
  || ((65 <=? nat_of_ascii c)%nat && (nat_of_ascii c <=? 70)%nat).

Definition lower_hex (c : ascii) : ascii :=
  if ((65 <=? nat_of_ascii c)%nat && (nat_of_ascii c <=? 70)%nat)
  then ascii_of_nat (nat_of_ascii c + 32)
  else c.

Fixpoint all_hex (s : string) : bool :=
  match s with
  | "" => true
  | String c r => is_hex c && all_hex r
  end.

Fixpoint lower (s : string) : string :=
  match s with
  | "" => ""
  | String c r => String (lower_hex c) (lower r)
  end.

Definition ObjectId (s : string) : option string :=
  if (String.length s =? 24)%nat && all_hex s then Some (lower s) else None.

(** [bson] writes a Python [int] in 4 or in 8 bytes; one that fits neither
    is an [OverflowError] (MongoDB can only handle up to 8-byte ints). *)
Definition int64 (n : Z) : bool :=
  (-9223372036854775808 <=? n) && (n <=? 9223372036854775807).

(** A stored model: its [id], the copy read back under the id the driver
    allocated, and the [int] fields [model_dump] hands to the driver. *)
Class Model (A : Type) := {
  model_id : A → option string;
  with_id : string → A → A;
  ints : A → list Z
}.

#[global] Instance Request_Model : Model Request.t := {|
  model_id r := Some (Request.id r);
  with_id i r :=
    Request.mk i (Request.user_id r) (Request.resident_cc r)
      (Request.resident_full_name r) (Request.vehicle_type r)
      (Request.license_plate r) (Request.description r) (Request.disability r)
      (Request.pay r) (Request.status r) (Request.lottery_period r)
      (Request.created_at r) (Request.updated_at r);
  ints _ := []
|}.

#[global] Instance User_Model : Model User.t := {|
  model_id u := Some (User.id u);
  with_id i u :=
    User.mk i (User.full_name u) (User.cc u) (User.email u)
      (User.hashed_password u) (User.apartment u) (User.phone_number u);
  ints _ := []
|}.

#[global] Instance LotteryResult_Model : Model LotteryResult.t := {|
  model_id l := LotteryResult.id l;
  with_id i l :=
    LotteryResult.mk (Some i) (LotteryResult.period l)
      (LotteryResult.total_car_spots_offered l)
      (LotteryResult.total_moto_spots_offered l)
      (LotteryResult.winners l) (LotteryResult.non_winners l)
      (LotteryResult.executed_at l);
  ints l :=
    [LotteryResult.total_car_spots_offered l;
     LotteryResult.total_moto_spots_offered l]
|}.

Module BaseRepository.
Section Repo.
Context {A : Type} `{Model A}.

(** [find_one(query)]: the first matching document, if any. *)
Definition find_one (query : A → bool) (collection : list A) : option A :=
  head (filter (fun d => query d = true) collection).

(** [find(query).skip(skip).limit(limit)]; a limit of 0 means no limit. *)
Definition find_many (query : A → bool) (skip limit : nat) (collection : list A)
  : list A :=
  let found := drop skip (filter (fun d => query d = true) collection) in
  match limit with
  | O => found
  | _ => take limit found
  end.

(** [get(item_id)], lines 74-102: [item_id] is read as an [ObjectId] and
    the document stored under it is returned, its [id] printed from the
    stored [_id]; a string that is no [ObjectId] raises inside the [try]
    and gives [None], as does an id under which nothing is stored. *)
Definition get (item_id : string) (collection : list A) : option A :=
  match ObjectId item_id with
  | Some obj_id => head (filter (fun d => model_id d = Some obj_id) collection)
  | None => None
  end.

(** [create(obj_in)], lines 37-72: [insert_one] encodes the dumped
    document, which fails on an [int] beyond 8 bytes; otherwise the
    document is stored under the identifier [oid] allocated by the driver
    and read back. *)
Definition create (oid : string) (obj_in : A) (collection : list A)
  : Result (A * list A) :=
  if forallb int64 (ints obj_in)
  then let created := with_id oid obj_in in
       Ok (created, (collection ++ [created])%list)
  else Raise OverflowError.

End Repo.
End BaseRepository.

(** ** [app/modules/sorteo/service.py] *)

(** The three collections the service opens. *)
Record DB := {
  lotteries : list LotteryResult.t;
  requests : list Request.t;
  users : list User.t
}.

(** What a run takes from outside the database: the state of the [random]
    module, the clock read by [datetime.utcnow()], and the identifier the
    driver allocates on insertion. *)
Record Env := {
  random : Py.Random;
  utcnow : Z;
  new_oid : string
}.

(** One element of [requests_with_user_info]. *)
Record Item := {
  request : Request.t;
  user : User.t;
  priority_score : Z
}.

Inductive Email :=
| WinnerEmail (to : string) (spot : option string)
| NonWinnerEmail (to : string).

(** The loop state of the assignment walk: the two spot lists being
    depleted, the two result lists, and the set of assigned keys. *)
Record Walk := {
  car_spots : list string;
  moto_spots : list string;
  winners : list LotteryParticipantResult.t;
  non_winners : list LotteryParticipantResult.t;
  assigned_users_and_vehicle_types : gset string
}.

Record Outcome := {
  result : Result LotteryResult.t;
  store : DB;
  outbox : list Email
}.

Module LotteryService.
Import BaseRepository.

Definition format_period (year month : Z) : string :=
  Py.format_0d 4 year +:+ "-" +:+ Py.format_0d 2 month.

(** Lines 37-47: parse ['YYYY-MM'], step one month back, print it again. *)
Definition previous_period (current_period : string) : Result string :=
  match Py.split "-" current_period with
  | [y; m] =>
      match Py.int y, Py.int m with
      | Some year, Some month =>
          let '(prev_year, prev_month) :=
            if month =? 1 then (year - 1, 12) else (year, month - 1) in
          Ok (format_period prev_year prev_month)
      | _, _ => Raise ValueError
      end
  | _ => Raise ValueError
  end.

Definition by_period (p : string) (l : LotteryResult.t) : bool :=
  bool_decide (LotteryResult.period l = p).

Definition _get_previous_period_non_winners (db : DB) (current_period : string)
  : Result (list string) :=
  match previous_period current_period with
  | Raise e => Raise e
  | Ok previous =>
      match find_one (by_period previous) (lotteries db) with
      | Some previous_lottery =>
          match LotteryResult.non_winners previous_lottery with
          | [] => Ok []
          | ps => Ok (LotteryParticipantResult.user_id <$> ps)
          end
      | None => Ok []
      end
  end.

Definition car_spot (i : Z) : string := "C-" +:+ Py.format_0d 2 (i + 1).
Definition moto_spot (i : Z) : string := "M-" +:+ Py.format_0d 2 (i + 1).

Definition _generate_spots (num_car_spots num_moto_spots : Z)
  : list string * list string :=
  (car_spot <$> Py.range num_car_spots, moto_spot <$> Py.range num_moto_spots).

(** Lines 76-79. *)
Definition accepted_query (period : string) (r : Request.t) : bool :=
  bool_decide (Request.lottery_period r = period) &&
  bool_decide (Request.status r = accepted).

Definition accepted_requests (db : DB) (period : string) : list Request.t :=
  find_many (accepted_query period) 0 1000 (requests db).

(** Lines 97-109: one iteration of the loop that resolves residents through
    [user_cache]. *)
Definition resolve_step (db : DB) (acc : gmap string User.t * list Item)
    (req : Request.t) : gmap string User.t * list Item :=
  let '(user_cache, requests_with_user_info) := acc in
  match user_cache !! Request.user_id req with
  | Some user =>
      (user_cache, (requests_with_user_info ++ [Build_Item req user 0])%list)
  | None =>
      match get (Request.user_id req) (users db) with
      | None => (user_cache, requests_with_user_info)
      | Some user_obj =>
          (<[Request.user_id req := user_obj]> user_cache,
           (requests_with_user_info ++ [Build_Item req user_obj 0])%list)
      end
  end.

Definition requests_with_user_info (db : DB) (reqs : list Request.t) : list Item :=
  snd (foldl (resolve_step db) (∅, []) reqs).

(** Lines 111-119: the body of the scoring loop. *)
Definition score (previous_non_winners_ids : list string) (item : Item) : Item :=
  let req := request item in
  let user := user item in
  let s0 := priority_score item in
  let s1 := if Request.disability req then s0 + 1000 else s0 in
  let s2 := if bool_decide (User.id user ∈ previous_non_winners_ids)
            then s1 + 500 else s1 in
  let s3 := if Request.pay req then s2 + 100 else s2 in
  Build_Item req user s3.

(** Lines 124-127: every group is shuffled in turn and appended. *)
Fixpoint shuffle_groups (groups : list (Z * list Item)) (g : Py.Random)
  : list Item * Py.Random :=
  match groups with
  | [] => ([], g)
  | (_, group_list) :: rest =>
      let '(shuffled, g1) := Py.shuffle group_list g in
      let '(tail, g2) := shuffle_groups rest g1 in
      ((shuffled ++ tail)%list, g2)
  end.

(** Lines 121-128. *)
Definition final_sorted_requests (items : list Item) (g : Py.Random) : list Item :=
  fst (shuffle_groups (Py.groupby priority_score (Py.sort_desc priority_score items)) g).

Definition assignment_key (user : User.t) (req : Request.t) : string :=
  User.id user +:+ "_" +:+ VehicleType_str (Request.vehicle_type req).

Definition participant (item : Item) (spot : option string)
  : LotteryParticipantResult.t :=
  let req := request item in
  let user := user item in
  LotteryParticipantResult.mk (User.id user) (User.cc user) (User.full_name user)
    (User.apartment user) (Request.vehicle_type req) (Request.license_plate req)
    spot (Request.id req).

(** Lines 138-183: the body of the assignment loop. *)
Definition assign (w : Walk) (item : Item) : Walk :=
  let req := request item in
  let user := user item in
  let assignment_key := assignment_key user req in
  if bool_decide (assignment_key ∈ assigned_users_and_vehicle_types w) then
    {| car_spots := car_spots w; moto_spots := moto_spots w;
       winners := winners w;
       non_winners := (non_winners w ++ [participant item None])%list;
       assigned_users_and_vehicle_types := assigned_users_and_vehicle_types w |}
  else
    let '(spot_assigned, cars, motos) :=
      match Request.vehicle_type req, car_spots w, moto_spots w with
      | automovil, s :: cars, motos => (Some s, cars, motos)
      | motocicleta, cars, s :: motos => (Some s, cars, motos)
      | _, cars, motos => (None, cars, motos)
      end in
    if Py.truthy spot_assigned then
      {| car_spots := cars; moto_spots := motos;
         winners := (winners w ++ [participant item spot_assigned])%list;
         non_winners := non_winners w;
         assigned_users_and_vehicle_types :=
           assigned_users_and_vehicle_types w ∪ {[assignment_key]} |}
    else
      {| car_spots := cars; moto_spots := motos;
         winners := winners w;
         non_winners := (non_winners w ++ [participant item None])%list;
         assigned_users_and_vehicle_types := assigned_users_and_vehicle_types w |}.

Definition start (spots : list string * list string) : Walk :=
  {| car_spots := fst spots; moto_spots := snd spots;
     winners := []; non_winners := [];
     assigned_users_and_vehicle_types := ∅ |}.

Definition walk (items : list Item) (w : Walk) : Walk := foldl assign w items.

(** Lines 271-344: who is written to.  A participant whose resident no
    longer resolves, or has no address, is passed over. *)
Definition recipient (db : DB) (p : LotteryParticipantResult.t) : option string :=
  match get (LotteryParticipantResult.user_id p) (users db) with
  | Some u => match User.email u with
              | "" => None
              | e => Some e
              end
  | None => None
  end.

Definition _send_lottery_notifications (db : DB) (lottery_result : LotteryResult.t)
    (notify_non_winners : bool) : list Email :=
  (omap (fun w => (fun e => WinnerEmail e (LotteryParticipantResult.spot w))
                    <$> recipient db w)
        (LotteryResult.winners lottery_result)
   ++ (if notify_non_winners
       then omap (fun l => NonWinnerEmail <$> recipient db l)
                 (LotteryResult.non_winners lottery_result)
       else []))%list.

(** Lines 65-197. *)
Definition execute_lottery (env : Env) (db : DB) (lottery_data : LotteryCreate.t)
  : Outcome :=
  let period := LotteryCreate.period lottery_data in
  let num_car_spots := LotteryCreate.num_car_spots lottery_data in
  let num_moto_spots := LotteryCreate.num_moto_spots lottery_data in
  let fail e := {| result := Raise e; store := db; outbox := [] |} in
  let persist new_lottery_result notify :=
    match create (new_oid env) new_lottery_result (lotteries db) with
    | Raise e => fail e
    | Ok (created_lottery, stored) =>
        {| result := Ok created_lottery;
           store := {| lotteries := stored; requests := requests db;
                       users := users db |};
           outbox := if notify : bool
                     then _send_lottery_notifications db created_lottery true
                     else [] |}
    end in
  match find_one (by_period period) (lotteries db) with
  | Some existing_lottery =>
      fail (HTTP_409_CONFLICT period (LotteryResult.id existing_lottery))
  | None =>
      match accepted_requests db period with
      | [] =>
          match LotteryResult_new period num_car_spots num_moto_spots [] []
                  (utcnow env) with
          | Ok new_lottery_result => persist new_lottery_result false
          | Raise e => fail e
          end
      | reqs =>
          match _get_previous_period_non_winners db period with
          | Raise e => fail e
          | Ok previous_non_winners_ids =>
              let scored :=
                score previous_non_winners_ids <$> requests_with_user_info db reqs in
              let final := final_sorted_requests scored (random env) in
              let w := walk final (start (_generate_spots num_car_spots num_moto_spots)) in
              match LotteryResult_new period num_car_spots num_moto_spots
                      (winners w) (non_winners w) (utcnow env) with
              | Ok new_lottery_result => persist new_lottery_result true
              | Raise e => fail e
              end
          end
      end
  end.

End LotteryService.


(** ** Vocabulary of the statements *)

(** Descending in the key, every element against every later one. *)
Definition descending {A : Type} (key : A → Z) (l : list A) : Prop :=
  StronglySorted (fun x y => key y ≤ key x) l.


(** What one accepted request contributes to [requests_with_user_info]:
    nothing when its resident does not resolve. *)
Definition candidate (db : DB) (req : Request.t) : option Item :=
  (fun u => Build_Item req u 0) <$> BaseRepository.get (Request.user_id req) (users db).

(** The scored candidates and their final order, for the boost set [prev]. *)
Definition scored_requests (db : DB) (period : string) (prev : list string)
  : list Item :=
  LotteryService.score prev
    <$> LotteryService.requests_with_user_info db
          (LotteryService.accepted_requests db period).

Definition ordered_candidates (env : Env) (db : DB) (period : string)
    (prev : list string) : list Item :=
  LotteryService.final_sorted_requests (scored_requests db period prev) (random env).

(** The key under which a recorded participant was (or would have been)
    marked as assigned, and the pair it stands for. *)
Definition entry_key (e : LotteryParticipantResult.t) : string :=
  LotteryParticipantResult.user_id e +:+ "_"
    +:+ VehicleType_str (LotteryParticipantResult.vehicle_type e).

Definition entry_pair (e : LotteryParticipantResult.t) : string * VehicleType :=
  (LotteryParticipantResult.user_id e, LotteryParticipantResult.vehicle_type e).

Definition item_pair (item : Item) : string * VehicleType :=
  (User.id (user item), Request.vehicle_type (request item)).

(** A participant entry with its spot blanked. *)
Definition unassigned (e : LotteryParticipantResult.t) : LotteryParticipantResult.t :=
  LotteryParticipantResult.mk
    (LotteryParticipantResult.user_id e) (LotteryParticipantResult.cc e)
    (LotteryParticipantResult.full_name e) (LotteryParticipantResult.apartment e)
    (LotteryParticipantResult.vehicle_type e)
    (LotteryParticipantResult.license_plate e) None
    (LotteryParticipantResult.request_id e).

(** The entries of one vehicle category. *)
Definition of_category (c : VehicleType) (es : list LotteryParticipantResult.t)
  : list LotteryParticipantResult.t :=
  filter (fun e => LotteryParticipantResult.vehicle_type e = c) es.

Definition items_of_category (c : VehicleType) (items : list Item) : list Item :=
  filter (fun it => Request.vehicle_type (request it) = c) items.

Definition offered (d : LotteryCreate.t) (c : VehicleType) : Z :=
  match c with
  | automovil => LotteryCreate.num_car_spots d
  | motocicleta => LotteryCreate.num_moto_spots d
  end.

(** The spot list of a category in a walk state. *)
Definition spots_left (c : VehicleType) (w : Walk) : list string :=
  match c with
  | automovil => car_spots w
  | motocicleta => moto_spots w
  end.

(** What holds of the walk state after the candidates [seen] have been
    visited, starting from the inventories [cars] and [motos]. *)
Record walk_inv (cars motos : list string) (seen : list Item) (w : Walk) : Prop := {
  inv_cars :
    ((LotteryParticipantResult.spot <$> of_category automovil (winners w))
       ++ (Some <$> car_spots w))%list = Some <$> cars;
  inv_motos :
    ((LotteryParticipantResult.spot <$> of_category motocicleta (winners w))
       ++ (Some <$> moto_spots w))%list = Some <$> motos;
  inv_assigned :
    ∀ k, k ∈ assigned_users_and_vehicle_types w ↔ k ∈ entry_key <$> winners w;
  inv_keys : NoDup (entry_key <$> winners w);
  inv_winners :
    Forall (fun e => Py.truthy (LotteryParticipantResult.spot e) = true) (winners w);
  inv_non_winners :
    Forall (fun e => LotteryParticipantResult.spot e = None) (non_winners w);
  inv_entries :
    unassigned <$> (winners w ++ non_winners w)%list
    ≡ₚ (fun it => LotteryService.participant it None) <$> seen;
  inv_truthy :
    Forall (fun s => Py.truthy (Some s) = true) (car_spots w ++ moto_spots w)%list
}.


(** The score as the specification words it: three independent weights,
    nothing else. *)
Definition spec_score (disability carried_forward paid : bool) : Z :=
  (if disability then 1000 else 0) + (if carried_forward then 500 else 0)
  + (if paid then 100 else 0).

(** Whether the result stored for [previous] lists [uid] among its
    non-winners. *)
Definition listed_non_winner (db : DB) (previous : string) (uid : string) : bool :=
  match BaseRepository.find_one (LotteryService.by_period previous) (lotteries db) with
  | Some l =>
      bool_decide (uid ∈ LotteryParticipantResult.user_id <$> LotteryResult.non_winners l)
  | None => false
  end.

(** The record a successful run stores and returns. *)
Definition produced (env : Env) (d : LotteryCreate.t) (w : Walk) : LotteryResult.t :=
  LotteryResult.mk (Some (new_oid env)) (LotteryCreate.period d)
    (LotteryCreate.num_car_spots d) (LotteryCreate.num_moto_spots d)
    (winners w) (non_winners w) (utcnow env).

(** The walk a run performs over [items]. *)
Definition allocation (d : LotteryCreate.t) (items : list Item) : Walk :=
  LotteryService.walk items
    (LotteryService.start
       (LotteryService._generate_spots (LotteryCreate.num_car_spots d)
          (LotteryCreate.num_moto_spots d))).


(** ** Sample data *)

Module Sample.

Definition ana : User.t :=
  User.mk "665f1c2e9b3a4d0012ab34c1" "Ana Restrepo" "1028345678"
    "ana@condominio.com" "$2b$12$ana" "Torre 5, Apto 203" "+573001234501".

Definition luis : User.t :=
  User.mk "665f1c2e9b3a4d0012ab34c2" "Luis Rios" "1193597666"
    "luis@condominio.com" "$2b$12$luis" "Torre 2, Apto 101" "+573001234502".

(** R1: car, dues paid. *)
Definition ana_car : Request.t :=
  Request.mk "666d9b8c7d1e3f4a5b6c2d01" (User.id ana) "1028345678" "Ana Restrepo"
    automovil "QWE123" None false true accepted "2025-07" 1750000000 1750000000.

(** R2: car, disability priority. *)
Definition luis_car : Request.t :=
  Request.mk "666d9b8c7d1e3f4a5b6c2d02" (User.id luis) "1193597666" "Luis Rios"
    automovil "XYZ789" None true false accepted "2025-07" 1750000100 1750000100.

(** A second accepted car request of the same resident for the same
    period. *)
Definition ana_car_again : Request.t :=
  Request.mk "666d9b8c7d1e3f4a5b6c2d03" (User.id ana) "1028345678" "Ana Restrepo"
    automovil "RTY456" None false true accepted "2025-07" 1750000200 1750000200.

Definition ana_moto_pending : Request.t :=
  Request.mk "666d9b8c7d1e3f4a5b6c2d04" (User.id ana) "1028345678" "Ana Restrepo"
    motocicleta "MOT12A" None false false pending "2025-07" 1750000300 1750000300.

Definition env : Env :=
  {| random := [5; 3; 2]%nat; utcnow := 1751328000;
     new_oid := "6680a1b2c3d4e5f601234567" |}.

Definition july : DB :=
  {| lotteries := []; requests := [ana_car; luis_car]; users := [ana; luis] |}.

Definition july_twice : DB :=
  {| lotteries := []; requests := [ana_car; ana_car_again]; users := [ana; luis] |}.

Definition july_idle : DB :=
  {| lotteries := []; requests := [ana_moto_pending]; users := [ana; luis] |}.

Definition one_car : LotteryCreate.t := LotteryCreate.mk "2025-07" 1 0.
Definition two_cars : LotteryCreate.t := LotteryCreate.mk "2025-07" 2 0.
Definition five_three : LotteryCreate.t := LotteryCreate.mk "2025-07" 5 3.

(** A car total of 2^63, one more than 8 bytes hold. *)
Definition beyond_8_bytes : LotteryCreate.t :=
  LotteryCreate.mk "2025-07" 9223372036854775808 0.

(** The database once the July lottery has been run. *)
Definition july_resolved : DB :=
  store (LotteryService.execute_lottery env july one_car).

(** A condominium with 1001 residents, each with one accepted car request
    for July. *)
Definition neighbour (i : nat) : User.t :=
  let n := Py.format_0d 4 (Z.of_nat i) in
  User.mk ("665f1c2e9b3a4d0012ab" +:+ n) ("Residente " +:+ n) ("10000" +:+ n)
    ("r" +:+ n +:+ "@condominio.com") "$2b$12$r" ("Apto " +:+ n)
    ("+57300123" +:+ n).

Definition neighbour_car (i : nat) : Request.t :=
  let n := Py.format_0d 4 (Z.of_nat i) in
  Request.mk ("666d9b8c7d1e3f4a5b6c" +:+ n) (User.id (neighbour i))
    (User.cc (neighbour i)) (User.full_name (neighbour i)) automovil
    ("CAR" +:+ n) None false false accepted "2025-07" 1750000000 1750000000.

Definition july_crowd : DB :=
  {| lotteries := [];
     requests := neighbour_car <$> seq 0 1001;
     users := neighbour <$> seq 0 1001 |}.

End Sample.


(** What the July run records, and the database with July already run and
    a request waiting for August. *)
Module SampleRuns.

Definition july_result : LotteryResult.t :=
  produced Sample.env Sample.one_car
    (allocation Sample.one_car
       (ordered_candidates Sample.env Sample.july "2025-07" [])).

Definition idle_result : LotteryResult.t :=
  LotteryResult.mk (Some (new_oid Sample.env)) "2025-07" 5 3 [] [] (utcnow Sample.env).

End SampleRuns.


Module SampleTwice.

(** The run over the database with the repeated request, two car spots on
    offer. *)
Definition twice_result : LotteryResult.t :=
  produced Sample.env Sample.two_cars
    (allocation Sample.two_cars
       (ordered_candidates Sample.env Sample.july_twice "2025-07" [])).

(** The run over the condominium of 1001 residents. *)
Definition crowd_result : LotteryResult.t :=
  produced Sample.env Sample.one_car
    (allocation Sample.one_car
       (ordered_candidates Sample.env Sample.july_crowd "2025-07" [])).

End SampleTwice.


(** ** The rest of [app/modules/sorteo/service.py]: reading and removing
    stored results

    What follows is used by the results on the read and delete paths. *)

(** [str(x)] of an [Optional[str]]. *)
Definition str_id (i : option string) : string :=
  match i with
  | Some s => s
  | None => "None"
  end.

Inductive HTTPException :=
| HTTP_400_BAD_REQUEST (detail : string)
| HTTP_404_NOT_FOUND (detail : string)
| HTTP_500_INTERNAL_SERVER_ERROR (detail : string).

Inductive Response (A : Type) :=
| Return (a : A)
| RaiseHTTP (e : HTTPException).
Arguments Return {A} a.
Arguments RaiseHTTP {A} e.

(** [app/shared/repository.py], lines 177-196. *)
Module BaseRepositoryMore.
Section Repo.
Context {A : Type} `{Model A}.

(** [delete_one({"_id": obj_id})]: the first document stored under that
    id goes; [None] when there is none. *)
Fixpoint delete_one (obj_id : string) (collection : list A) : option (list A) :=
  match collection with
  | [] => None
  | d :: rest =>
      if bool_decide (model_id d = Some obj_id) then Some rest
      else (fun rest' => d :: rest') <$> delete_one obj_id rest
  end.

(** [delete(item_id)]: whether a document was deleted, and the collection
    left.  An id that is no [ObjectId] raises inside the [try] and gives
    [False]. *)
Definition delete (item_id : string) (collection : list A) : bool * list A :=
  match ObjectId item_id with
  | None => (false, collection)
  | Some obj_id =>
      match delete_one obj_id collection with
      | Some rest => (true, rest)
      | None => (false, collection)
      end
  end.

End Repo.
End BaseRepositoryMore.

(** [app/modules/sorteo/schemas.py], lines 114-129. *)
Module MyAssignmentOut.
Record t := mk {
  period : string;
  vehicle_type : VehicleType;
  license_plate : string;
  spot : option string
}.
End MyAssignmentOut.

(** What [delete_lottery_result] answers and the database it leaves. *)
Record Deletion := {
  response : Response string;
  remaining : DB
}.

Module LotteryResults.
Import BaseRepository BaseRepositoryMore LotteryService.

(** Lines 199-216: the stored result of a period, its winners narrowed to
    one vehicle type when the caller names one. *)
Definition get_lottery_result (db : DB) (lottery_period : string)
    (vehicle_type : option VehicleType) : Response LotteryResult.t :=
  match find_one (by_period lottery_period) (lotteries db) with
  | None =>
      RaiseHTTP (HTTP_404_NOT_FOUND
        "Resultado de sorteo no encontrado para el período especificado.")
  | Some lottery_result =>
      match vehicle_type with
      | Some vt =>
          Return (LotteryResult.mk (LotteryResult.id lottery_result)
                    (LotteryResult.period lottery_result)
                    (LotteryResult.total_car_spots_offered lottery_result)
                    (LotteryResult.total_moto_spots_offered lottery_result)
                    (filter (fun winner =>
                               LotteryParticipantResult.vehicle_type winner = vt)
                            (LotteryResult.winners lottery_result))
                    (LotteryResult.non_winners lottery_result)
                    (LotteryResult.executed_at lottery_result))
      | None => Return lottery_result
      end
  end.

(** Lines 232-240: one iteration of the loop over the winners. *)
Definition collect (user_id lottery_period : string)
    (my_assignments : list MyAssignmentOut.t) (winner : LotteryParticipantResult.t)
  : list MyAssignmentOut.t :=
  if bool_decide (LotteryParticipantResult.user_id winner = user_id)
  then my_assignments
         ++ [MyAssignmentOut.mk lottery_period
               (LotteryParticipantResult.vehicle_type winner)
               (LotteryParticipantResult.license_plate winner)
               (LotteryParticipantResult.spot winner)]
  else my_assignments.

(** Lines 218-241. *)
Definition get_my_assignment (db : DB) (user_id lottery_period : string)
  : list MyAssignmentOut.t :=
  match find_one (by_period lottery_period) (lotteries db) with
  | None => []
  | Some lottery_result =>
      foldl (collect user_id lottery_period) [] (LotteryResult.winners lottery_result)
  end.

(** Lines 243-269. *)
Definition delete_lottery_result (db : DB) (lottery_period : string) : Deletion :=
  match find_one (by_period lottery_period) (lotteries db) with
  | None =>
      {| response := RaiseHTTP (HTTP_404_NOT_FOUND
           "Sorteo no encontrado para el período especificado.");
         remaining := db |}
  | Some lottery_to_delete =>
      let '(delete_result, rest) :=
        delete (str_id (LotteryResult.id lottery_to_delete)) (lotteries db) in
      let db' := {| lotteries := rest; requests := requests db; users := users db |} in
      if delete_result
      then {| response := Return "Sorteo eliminado exitosamente."; remaining := db' |}
      else {| response := RaiseHTTP (HTTP_500_INTERNAL_SERVER_ERROR
                "No se pudo eliminar el sorteo a pesar de haberlo encontrado. Inténtalo de nuevo.");
              remaining := db' |}
  end.

End LotteryResults.

(** [app/modules/sorteo/router.py], lines 63-86: the endpoint a resident
    calls, once the session has given [current_user]. *)
Module Router.
Import LotteryResults.

Definition get_my_lottery_assignment (db : DB) (lottery_period : string)
    (current_user : User.t) : Response (list MyAssignmentOut.t) :=
  let user_id_str := User.id current_user in
  match user_id_str with
  | "" => RaiseHTTP (HTTP_400_BAD_REQUEST "ID de usuario no disponible.")
  | _ => Return (get_my_assignment db user_id_str lottery_period)
  end.

End Router.


(** The address a participant is written to: the stored resident's
    [email], empty when the resident does not resolve. *)
Definition address (db : DB) (p : LotteryParticipantResult.t) : string :=
  match BaseRepository.get (LotteryParticipantResult.user_id p) (users db) with
  | Some u => User.email u
  | None => ""
  end.


(** Why an entry may stand among the non-winners of a walk state: its key
    is already assigned, or its category has no spot left. *)
Definition excused (w : Walk) (e : LotteryParticipantResult.t) : Prop :=
  entry_key e ∈ assigned_users_and_vehicle_types w
  ∨ spots_left (LotteryParticipantResult.vehicle_type e) w = [].

(** * Properties *)

(** ** Identifiers *)

Section Identifiers.

Lemma lower_hex_spec (c : ascii) :
  is_hex c = true →
  is_hex (lower_hex c) = true ∧ lower_hex (lower_hex c) = lower_hex c.
Proof.
  destruct c as [[|] [|] [|] [|] [|] [|] [|] [|]]; intros Hc;
    try discriminate Hc; by split.
Qed.

Lemma lower_spec (s : string) :
  all_hex s = true →
  all_hex (lower s) = true ∧ lower (lower s) = lower s
  ∧ String.length (lower s) = String.length s.
Proof.
  induction s as [|c s IH]; simpl; [done|].
  intros [Hc Hs]%andb_prop. destruct (IH Hs) as (H1 & H2 & H3).
  destruct (lower_hex_spec c Hc) as [Hc1 Hc2].
  by rewrite Hc1, Hc2, H1, H2, H3.
Qed.

Lemma int64_spec (n : Z) :
  int64 n = true ↔ -9223372036854775808 ≤ n ≤ 9223372036854775807.
Proof. unfold int64. rewrite andb_true_iff, !Z.leb_le. done. Qed.

(** What [ObjectId] prints is an [ObjectId] that prints the same. *)
Lemma ObjectId_idem (s obj_id : string) :
  ObjectId s = Some obj_id → ObjectId obj_id = Some obj_id.
Proof.
  unfold ObjectId.
  destruct (String.length s =? 24)%nat eqn:Hl; [|done].
  destruct (all_hex s) eqn:Hh; [|done]. simpl. intros [= <-].
  destruct (lower_spec s Hh) as (H1 & H2 & H3).
  by rewrite H3, Hl, H1, H2.
Qed.

End Identifiers.

(** ** Decimal printing and parsing *)

Section Digits.

Lemma all_digits_app (a b : string) :
  all_digits (a +:+ b) = all_digits a && all_digits b.
Proof.
  induction a as [|c a IH]; simpl; [done|].
  rewrite IH. by destruct (is_digit c).
Qed.

Lemma all_digits_string_of_uint (d : uint) :
  all_digits (NilEmpty.string_of_uint d) = true.
Proof. induction d; simpl; auto. Qed.

Lemma all_digits_zeros (k : nat) : all_digits (Py.zeros k) = true.
Proof. induction k; simpl; auto. Qed.

Lemma all_digits_zfill (w : nat) (n : N) :
  all_digits (Py.zfill w (Py.digits n)) = true.
Proof.
  unfold Py.zfill, Py.digits.
  by rewrite all_digits_app, all_digits_zeros, all_digits_string_of_uint.
Qed.

Lemma digits_nonempty (n : N) : Py.digits n ≠ "".
Proof.
  unfold Py.digits. intros E.
  pose proof (NilEmpty.usu (N.to_uint n)) as U. rewrite E in U. simpl in U.
  destruct n as [|p]; simpl in U; [discriminate|].
  injection U as U. symmetry in U. by apply DecimalPos.Unsigned.to_uint_nonnil in U.
Qed.

Lemma zfill_nonempty (w : nat) (n : N) : Py.zfill w (Py.digits n) ≠ "".
Proof.
  unfold Py.zfill. destruct (Py.zeros _) eqn:E; simpl; [|done].
  apply digits_nonempty.
Qed.

Lemma uint_of_string_zeros (k : nat) (s : string) (d : uint) :
  NilEmpty.uint_of_string s = Some d →
  ∃ d', NilEmpty.uint_of_string (Py.zeros k +:+ s) = Some d'
        ∧ N.of_uint d' = N.of_uint d.
Proof.
  intros Hs. induction k as [|k [d' [E1 E2]]]; simpl; [eauto|].
  rewrite E1. simpl. eauto.
Qed.

(** Parsing undoes zero-padded printing. *)
Lemma int_zfill (w : nat) (n : N) :
  Py.int (Py.zfill w (Py.digits n)) = Some (Z.of_N n).
Proof.
  pose proof (zfill_nonempty w n) as Hne.
  unfold Py.int. destruct (Py.zfill w (Py.digits n)) as [|c s] eqn:E; [done|].
  rewrite <- E. unfold Py.zfill, Py.digits.
  destruct (uint_of_string_zeros (w - String.length (Py.digits n)) _ _
              (NilEmpty.usu (N.to_uint n))) as [d' [E1 E2]].
  unfold Py.digits in E1. rewrite E1. simpl.
  by rewrite E2, DecimalN.Unsigned.of_to.
Qed.

Lemma int_format_0d (w : nat) (n : Z) :
  0 ≤ n → Py.int (Py.format_0d w n) = Some n.
Proof.
  intros Hn. unfold Py.format_0d.
  destruct (Z.ltb_spec n 0) as [|_]; [lia|].
  rewrite int_zfill. f_equal. lia.
Qed.

Lemma all_digits_format_0d (w : nat) (n : Z) :
  0 ≤ n → all_digits (Py.format_0d w n) = true.
Proof.
  intros Hn. unfold Py.format_0d.
  destruct (Z.ltb_spec n 0) as [|_]; [lia|]. apply all_digits_zfill.
Qed.

Lemma format_0d_inj (w : nat) (n m : Z) :
  0 ≤ n → 0 ≤ m → Py.format_0d w n = Py.format_0d w m → n = m.
Proof.
  intros Hn Hm E. apply (f_equal Py.int) in E.
  rewrite !int_format_0d in E by done. congruence.
Qed.

Lemma format_0d_nonempty (w : nat) (n : Z) : Py.format_0d w n ≠ "".
Proof.
  unfold Py.format_0d. destruct (n <? 0); [done|]. apply zfill_nonempty.
Qed.

(** A string of digits holds no separator. *)
Lemma split_digits (s : string) :
  all_digits s = true → Py.split "-" s = [s].
Proof.
  induction s as [|c s IH]; simpl; [done|].
  intros [Hc Hs]%andb_prop. rewrite (IH Hs).
  destruct (Ascii.eqb_spec c "-") as [->|]; [discriminate|done].
Qed.

Lemma split_digits_dash (a b : string) :
  all_digits a = true →
  Py.split "-" (a +:+ String "-" b) = a :: Py.split "-" b.
Proof.
  induction a as [|c a IH]; simpl; [done|].
  intros [Hc Ha]%andb_prop. rewrite (IH Ha).
  destruct (Ascii.eqb_spec c "-") as [->|]; [discriminate|done].
Qed.

End Digits.

(** ** Sorting, grouping and shuffling *)

Section SortFacts.
Context {A : Type} (key : A → Z).

Lemma insert_desc_perm (x : A) (l : list A) : Py.insert_desc key x l ≡ₚ x :: l.
Proof.
  induction l as [|y l IH]; simpl; [done|].
  destruct (key x <? key y); [|done].
  rewrite IH. apply Permutation_swap.
Qed.

Lemma sort_desc_perm (l : list A) : Py.sort_desc key l ≡ₚ l.
Proof.
  induction l as [|x l IH]; simpl; [done|].
  by rewrite insert_desc_perm, IH.
Qed.

Lemma insert_desc_descending (x : A) (l : list A) :
  descending key l → descending key (Py.insert_desc key x l).
Proof.
  unfold descending. induction 1 as [|y l Hl IH Hy]; simpl.
  - repeat constructor.
  - destruct (Z.ltb_spec (key x) (key y)) as [Hlt|Hge].
    + constructor; [done|].
      rewrite insert_desc_perm. constructor; [lia|done].
    + constructor; [by constructor|].
      constructor; [done|].
      eapply Forall_impl; [exact Hy|]. simpl. intros; lia.
Qed.

Lemma sort_desc_descending (l : list A) : descending key (Py.sort_desc key l).
Proof.
  induction l as [|x l IH]; simpl; [constructor|].
  by apply insert_desc_descending.
Qed.

(** Grouping only cuts the list: gluing the groups back gives it again. *)
Lemma groupby_concat (l : list A) : concat (snd <$> Py.groupby key l) = l.
Proof.
  induction l as [|x l IH]; simpl; [done|].
  destruct (Py.groupby key l) as [|[k g] gs]; simpl in *.
  - by rewrite <- IH.
  - destruct (key x =? k); simpl; by rewrite <- IH.
Qed.

(** Inside a group every element has the group's key. *)
Lemma groupby_keys (l : list A) :
  Forall (fun kg => Forall (fun x => key x = fst kg) (snd kg)) (Py.groupby key l).
Proof.
  induction l as [|x l IH]; simpl; [constructor|].
  destruct (Py.groupby key l) as [|[k g] gs]; simpl in *.
  - repeat constructor.
  - inversion_clear IH as [|? ? Hg Hgs].
    destruct (Z.eqb_spec (key x) k) as [E|_].
    + constructor; [|done]. simpl in *. by constructor.
    + constructor; [by repeat constructor|]. by constructor.
Qed.

End SortFacts.

Section ShuffleFacts.
Context {A : Type}.

Lemma swap_perm (i j : nat) (x : list A) : Py.swap i j x ≡ₚ x.
Proof.
  unfold Py.swap.
  destruct (x !! i) as [a|] eqn:Ei; [|done].
  destruct (x !! j) as [b|] eqn:Ej; [|done].
  by apply Permutation_insert_swap.
Qed.

Lemma shuffle_from_perm (i : nat) (x : list A) (g : Py.Random) :
  fst (Py.shuffle_from i x g) ≡ₚ x.
Proof.
  revert x g. induction i as [|i IH]; intros x g; simpl; [done|].
  destruct (Py.randbelow (S (S i)) g) as [j g'].
  by rewrite IH, swap_perm.
Qed.

(** Whatever the draws, a shuffle rearranges its argument and nothing
    else. *)
Lemma shuffle_perm (x : list A) (g : Py.Random) : fst (Py.shuffle x g) ≡ₚ x.
Proof. apply shuffle_from_perm. Qed.

End ShuffleFacts.

Lemma constant_fmap {A B} (f : A → B) (k : B) (l : list A) :
  Forall (fun x => f x = k) l → f <$> l = replicate (length l) k.
Proof.
  induction 1 as [|x l Hx _ IH]; [done|].
  rewrite fmap_cons, Hx, IH. done.
Qed.

Section Ordering.
Import LotteryService.

Lemma shuffle_groups_perm (gs : list (Z * list Item)) (g : Py.Random) :
  fst (shuffle_groups gs g) ≡ₚ concat (snd <$> gs).
Proof.
  revert g. induction gs as [|[k grp] gs IH]; intros g; simpl; [done|].
  pose proof (shuffle_perm grp g) as Hs.
  destruct (Py.shuffle grp g) as [shuffled g1].
  specialize (IH g1). destruct (shuffle_groups gs g1) as [tail g2].
  simpl in *. by rewrite Hs, IH.
Qed.

(** Shuffling inside the groups leaves the sequence of scores as it was. *)
Lemma shuffle_groups_scores (gs : list (Z * list Item)) (g : Py.Random) :
  Forall (fun kg => Forall (fun x => priority_score x = fst kg) (snd kg)) gs →
  priority_score <$> fst (shuffle_groups gs g)
  = priority_score <$> concat (snd <$> gs).
Proof.
  revert g. induction gs as [|[k grp] gs IH]; intros g Hk; simpl; [done|].
  inversion_clear Hk as [|? ? Hgrp Hgs]. simpl in Hgrp.
  pose proof (shuffle_perm grp g) as Hs.
  destruct (Py.shuffle grp g) as [shuffled g1].
  specialize (IH g1 Hgs). destruct (shuffle_groups gs g1) as [tail g2].
  simpl in *. rewrite !fmap_app, IH. f_equal.
  rewrite (constant_fmap _ k grp) by done.
  rewrite (constant_fmap _ k shuffled).
  - by rewrite Hs.
  - by rewrite Hs.
Qed.

Lemma final_sorted_requests_perm (items : list Item) (g : Py.Random) :
  final_sorted_requests items g ≡ₚ items.
Proof.
  unfold final_sorted_requests.
  by rewrite shuffle_groups_perm, groupby_concat, sort_desc_perm.
Qed.

Lemma final_sorted_requests_scores (items : list Item) (g : Py.Random) :
  priority_score <$> final_sorted_requests items g
  = priority_score <$> Py.sort_desc priority_score items.
Proof.
  unfold final_sorted_requests.
  rewrite shuffle_groups_scores by apply groupby_keys.
  by rewrite groupby_concat.
Qed.

End Ordering.

(** ** Periods *)

Section Periods.
Import LotteryService.

Lemma split_format_period (y m : Z) :
  0 ≤ y → 0 ≤ m →
  Py.split "-" (format_period y m) = [Py.format_0d 4 y; Py.format_0d 2 m].
Proof.
  intros Hy Hm. unfold format_period.
  change ("-" +:+ Py.format_0d 2 m) with (String "-" (Py.format_0d 2 m)).
  rewrite split_digits_dash by (by apply all_digits_format_0d).
  by rewrite split_digits by (by apply all_digits_format_0d).
Qed.

(** Stepping back from month [m] of year [y]: January goes to December of
    the year before, any other month to the month before. *)
Lemma previous_period_format (y m : Z) :
  0 ≤ y → 0 ≤ m →
  previous_period (format_period y m)
  = Ok (if m =? 1 then format_period (y - 1) 12 else format_period y (m - 1)).
Proof.
  intros Hy Hm. unfold previous_period.
  rewrite split_format_period by done.
  rewrite !int_format_0d by done.
  by destruct (m =? 1).
Qed.

End Periods.

(** ** The spot inventory *)

Section Spots.
Import LotteryService.

Lemma length_range (n : Z) : length (Py.range n) = Z.to_nat n.
Proof. unfold Py.range. by rewrite length_fmap, length_seq. Qed.

Lemma range_nonneg (n i : Z) : i ∈ Py.range n → 0 ≤ i.
Proof.
  unfold Py.range. intros [k [-> _]]%list_elem_of_fmap. lia.
Qed.

Lemma NoDup_range (n : Z) : NoDup (Py.range n).
Proof.
  unfold Py.range. apply NoDup_fmap_2; [|apply NoDup_seq].
  intros a b. lia.
Qed.

Lemma car_spot_inj (i j : Z) : 0 ≤ i → 0 ≤ j → car_spot i = car_spot j → i = j.
Proof.
  unfold car_spot. intros Hi Hj E. simplify_eq/=.
  apply format_0d_inj in E; lia.
Qed.

Lemma moto_spot_inj (i j : Z) : 0 ≤ i → 0 ≤ j → moto_spot i = moto_spot j → i = j.
Proof.
  unfold moto_spot. intros Hi Hj E. simplify_eq/=.
  apply format_0d_inj in E; lia.
Qed.

Lemma generate_spots_length (n m : Z) :
  length (fst (_generate_spots n m)) = Z.to_nat n
  ∧ length (snd (_generate_spots n m)) = Z.to_nat m.
Proof. unfold _generate_spots. simpl. by rewrite !length_fmap, !length_range. Qed.

Lemma generate_spots_NoDup (n m : Z) :
  NoDup (fst (_generate_spots n m) ++ snd (_generate_spots n m))%list.
Proof.
  unfold _generate_spots. simpl. apply NoDup_app. split_and!.
  - apply NoDup_fmap_2_strong; [|apply NoDup_range].
    intros i j Hi%range_nonneg Hj%range_nonneg. by apply car_spot_inj.
  - intros s [i [-> _]]%list_elem_of_fmap [j [E _]]%list_elem_of_fmap.
    discriminate E.
  - apply NoDup_fmap_2_strong; [|apply NoDup_range].
    intros i j Hi%range_nonneg Hj%range_nonneg. by apply moto_spot_inj.
Qed.

(** No generated identifier is the empty string, so each is truthy. *)
Lemma generate_spots_truthy (n m : Z) :
  Forall (fun s => Py.truthy (Some s) = true)
         (fst (_generate_spots n m) ++ snd (_generate_spots n m))%list.
Proof.
  unfold _generate_spots. simpl. apply Forall_app. split.
  - apply Forall_fmap, Forall_forall. by intros i _.
  - apply Forall_fmap, Forall_forall. by intros i _.
Qed.

End Spots.

(** ** Assignment keys *)

Section Keys.
Import LotteryService.

Lemma list_ascii_of_string_app (a b : string) :
  list_ascii_of_string (a +:+ b)
  = (list_ascii_of_string a ++ list_ascii_of_string b)%list.
Proof. induction a as [|c a IH]; simpl; [done|]. by rewrite IH. Qed.

Lemma list_ascii_of_string_inj (a b : string) :
  list_ascii_of_string a = list_ascii_of_string b → a = b.
Proof.
  intros E. apply (f_equal string_of_list_ascii) in E.
  by rewrite !string_of_list_ascii_of_string in E.
Qed.

(** The key [f"{user.id}_{vehicle_type}"] determines both of its parts. *)
Lemma key_inj (u1 u2 : string) (v1 v2 : VehicleType) :
  u1 +:+ "_" +:+ VehicleType_str v1 = u2 +:+ "_" +:+ VehicleType_str v2 →
  u1 = u2 ∧ v1 = v2.
Proof.
  intros E. apply (f_equal list_ascii_of_string) in E.
  rewrite !list_ascii_of_string_app in E.
  destruct v1, v2; simpl in E.
  - apply app_inj_2 in E as [E _]; [|done].
    by apply list_ascii_of_string_inj in E.
  - exfalso.
    change ((list_ascii_of_string u1 ++ list_ascii_of_string "_automovi" ++ ["l"%char])%list
            = (list_ascii_of_string u2 ++ list_ascii_of_string "_motociclet" ++ ["a"%char])%list) in E.
    rewrite !(assoc_L app) in E. by apply app_inj_tail in E as [_ ?].
  - exfalso.
    change ((list_ascii_of_string u1 ++ list_ascii_of_string "_motociclet" ++ ["a"%char])%list
            = (list_ascii_of_string u2 ++ list_ascii_of_string "_automovi" ++ ["l"%char])%list) in E.
    rewrite !(assoc_L app) in E. by apply app_inj_tail in E as [_ ?].
  - apply app_inj_2 in E as [E _]; [|done].
    by apply list_ascii_of_string_inj in E.
Qed.

End Keys.

(** ** Resolving residents *)

Section Resolve.
Import LotteryService.

(** The cache only ever holds what the repository returned. *)
Lemma resolve_fold (db : DB) (reqs : list Request.t)
    (user_cache : gmap string User.t) (items : list Item) :
  (∀ k u, user_cache !! k = Some u → BaseRepository.get k (users db) = Some u) →
  snd (foldl (resolve_step db) (user_cache, items) reqs)
  = items ++ omap (candidate db) reqs.
Proof.
  revert user_cache items.
  induction reqs as [|req reqs IH]; intros user_cache items Hc; simpl.
  - by rewrite app_nil_r.
  - unfold candidate at 1.
    destruct (user_cache !! Request.user_id req) as [u|] eqn:E.
    + rewrite (Hc _ _ E). simpl. rewrite IH by done.
      by rewrite <- (assoc_L app).
    + destruct (BaseRepository.get (Request.user_id req) (users db))
        as [u|] eqn:G; simpl.
      * rewrite IH; [by rewrite <- (assoc_L app)|].
        intros k u' Hk. apply lookup_insert_Some in Hk as [[<- <-]|[_ Hk]]; eauto.
      * by apply IH.
Qed.

Lemma requests_with_user_info_spec (db : DB) (reqs : list Request.t) :
  requests_with_user_info db reqs = omap (candidate db) reqs.
Proof.
  unfold requests_with_user_info. by rewrite resolve_fold.
Qed.

Lemma length_omap_filter {A B} (f : A → option B) (l : list A) :
  (length (omap f l) + length (filter (fun x => f x = None) l))%nat = length l.
Proof.
  induction l as [|x l IH]; [done|].
  rewrite filter_cons. case_decide as E.
  - rewrite length_cons. csimpl. rewrite E. lia.
  - destruct (f x) eqn:F; [|done]. csimpl. rewrite F. csimpl. lia.
Qed.

End Resolve.

(** ** The assignment walk *)

Section WalkFacts.
Import LotteryService.
Context (cars motos : list string).

Lemma of_category_snoc (c : VehicleType) (es : list LotteryParticipantResult.t)
    (e : LotteryParticipantResult.t) :
  of_category c (es ++ [e])
  = of_category c es
      ++ (if decide (LotteryParticipantResult.vehicle_type e = c) then [e] else []).
Proof.
  unfold of_category. by rewrite filter_app.
Qed.

Lemma start_inv :
  Forall (fun s => Py.truthy (Some s) = true) (cars ++ motos) →
  walk_inv cars motos [] (start (cars, motos)).
Proof.
  intros Ht. split; simpl; try done.
  - intros k. set_solver.
  - constructor.
Qed.

(** Recording a non-winner touches nothing but the non-winner list. *)
Lemma lose_inv (seen : list Item) (w : Walk) (item : Item) :
  walk_inv cars motos seen w →
  walk_inv cars motos (seen ++ [item])
    {| car_spots := car_spots w; moto_spots := moto_spots w;
       winners := winners w;
       non_winners := non_winners w ++ [participant item None];
       assigned_users_and_vehicle_types := assigned_users_and_vehicle_types w |}.
Proof.
  intros [Hc Hm Ha Hk Hw Hn He Ht]. split; simpl; try done.
  - apply Forall_app. split; [done|]. by repeat constructor.
  - rewrite (assoc_L app), (fmap_app _ (winners w ++ non_winners w)), He.
    by rewrite fmap_app.
Qed.

(** Recording a winner of category [c] pops the head of that category's
    list and marks the key. *)
Lemma win_inv (seen : list Item) (w : Walk) (item : Item) (s : string)
    (cars' motos' : list string) :
  walk_inv cars motos seen w →
  assignment_key (user item) (request item) ∉ assigned_users_and_vehicle_types w →
  match Request.vehicle_type (request item) with
  | automovil => car_spots w = s :: cars' ∧ motos' = moto_spots w
  | motocicleta => moto_spots w = s :: motos' ∧ cars' = car_spots w
  end →
  walk_inv cars motos (seen ++ [item])
    {| car_spots := cars'; moto_spots := motos';
       winners := winners w ++ [participant item (Some s)];
       non_winners := non_winners w;
       assigned_users_and_vehicle_types :=
         assigned_users_and_vehicle_types w
           ∪ {[assignment_key (user item) (request item)]} |}.
Proof.
  intros [Hc Hm Ha Hk Hw Hn He Ht] Hfresh Hpop.
  assert (Py.truthy (Some s) = true) as Hs.
  { apply Forall_app in Ht as [H1 H2].
    destruct (Request.vehicle_type (request item)); destruct Hpop as [E _].
    - rewrite E in H1. by inversion_clear H1.
    - rewrite E in H2. by inversion_clear H2. }
  split; simpl.
  - rewrite of_category_snoc. simpl.
    destruct (Request.vehicle_type (request item)) eqn:V; destruct Hpop as [E ->].
    + rewrite decide_True by done. rewrite E in Hc.
      rewrite fmap_app, <- (assoc_L app). done.
    + rewrite decide_False by done. by rewrite app_nil_r.
  - rewrite of_category_snoc. simpl.
    destruct (Request.vehicle_type (request item)) eqn:V; destruct Hpop as [E ->].
    + rewrite decide_False by done. by rewrite app_nil_r.
    + rewrite decide_True by done. rewrite E in Hm.
      rewrite fmap_app, <- (assoc_L app). done.
  - intros k.
    rewrite fmap_app, elem_of_union, elem_of_app, Ha, elem_of_singleton.
    rewrite list_fmap_singleton. by rewrite list_elem_of_singleton.
  - rewrite fmap_app. apply NoDup_app. split_and!; [done| |apply NoDup_singleton].
    intros k Hk1 ->%list_elem_of_singleton. apply Hfresh, Ha, Hk1.
  - apply Forall_app. split; [done|]. by repeat constructor.
  - done.
  - rewrite <- (assoc_L app), (Permutation_app_comm [_]), (assoc_L app).
    rewrite (fmap_app _ (winners w ++ non_winners w)), He.
    by rewrite fmap_app.
  - apply Forall_app in Ht as [H1 H2]. apply Forall_app.
    destruct (Request.vehicle_type (request item)); destruct Hpop as [E ->].
    + rewrite E in H1. split; [by inversion_clear H1|done].
    + rewrite E in H2. split; [done|by inversion_clear H2].
Qed.

Lemma assign_inv (seen : list Item) (w : Walk) (item : Item) :
  walk_inv cars motos seen w →
  walk_inv cars motos (seen ++ [item]) (assign w item).
Proof.
  intros Hinv. unfold assign.
  case_bool_decide as Hkey; [by apply lose_inv|].
  pose proof (inv_truthy _ _ _ _ Hinv) as Ht.
  destruct (Request.vehicle_type (request item)) eqn:V.
  - destruct (car_spots w) as [|s cars'] eqn:E.
    + simpl. rewrite <- E. by apply lose_inv.
    + apply Forall_app in Ht as [Ht _]. inversion_clear Ht as [|? ? Hs _].
      rewrite Hs. apply win_inv; [done..|]. by rewrite V.
  - destruct (moto_spots w) as [|s motos'] eqn:E.
    + simpl. rewrite <- E. by apply lose_inv.
    + apply Forall_app in Ht as [_ Ht]. inversion_clear Ht as [|? ? Hs _].
      rewrite Hs. apply win_inv; [done..|]. by rewrite V.
Qed.

Lemma walk_inv_from (items seen : list Item) (w : Walk) :
  walk_inv cars motos seen w →
  walk_inv cars motos (seen ++ items) (walk items w).
Proof.
  revert seen w. induction items as [|item items IH]; intros seen w Hinv; simpl.
  - by rewrite app_nil_r.
  - rewrite (assoc_L app _ [item] items) || rewrite cons_middle, (assoc_L app).
    apply IH. by apply assign_inv.
Qed.

End WalkFacts.

(** ** Enough spots for everybody *)

Section Enough.
Import LotteryService.
Context (cars motos : list string) (c : VehicleType).

Lemma entry_pair_of_key (e : LotteryParticipantResult.t) (item : Item) :
  entry_key e = assignment_key (user item) (request item) →
  entry_pair e = item_pair item.
Proof.
  unfold entry_key, assignment_key, entry_pair, item_pair.
  by intros [-> ->]%key_inj.
Qed.

(** A winner was among the candidates already visited. *)
Lemma winner_visited (seen : list Item) (w : Walk) (e : LotteryParticipantResult.t) :
  walk_inv cars motos seen w → e ∈ winners w →
  entry_pair e ∈ item_pair <$> seen.
Proof.
  intros Hinv He.
  assert (unassigned e ∈ (fun it => participant it None) <$> seen) as Hin.
  { rewrite <- (inv_entries _ _ _ _ Hinv). apply list_elem_of_fmap.
    exists e. split; [done|]. apply elem_of_app. by left. }
  apply list_elem_of_fmap in Hin as [it [E Hit]].
  apply list_elem_of_fmap. exists it. split; [|done].
  by apply (f_equal entry_pair) in E.
Qed.

(** Visiting a candidate of another category leaves category [c] alone. *)
Lemma assign_other (w : Walk) (item : Item) :
  Request.vehicle_type (request item) ≠ c →
  spots_left c (assign w item) = spots_left c w
  ∧ of_category c (non_winners (assign w item)) = of_category c (non_winners w).
Proof.
  intros Hc. unfold assign.
  assert (of_category c (non_winners w ++ [participant item None])
          = of_category c (non_winners w)) as Hn.
  { rewrite of_category_snoc. simpl. rewrite decide_False by done.
    by rewrite app_nil_r. }
  case_bool_decide; [done|].
  destruct (Request.vehicle_type (request item)) eqn:V, c; try done.
  - destruct (car_spots w) as [|[|a s] ?]; simpl; by rewrite ?Hn.
  - destruct (moto_spots w) as [|[|a s] ?]; simpl; by rewrite ?Hn.
Qed.

(** Visiting a candidate of category [c] whose key is free, while a spot of
    that category is left, records a winner and uses up one spot. *)
Lemma assign_same (seen : list Item) (w : Walk) (item : Item) :
  walk_inv cars motos seen w →
  Request.vehicle_type (request item) = c →
  assignment_key (user item) (request item) ∉ assigned_users_and_vehicle_types w →
  spots_left c w ≠ [] →
  S (length (spots_left c (assign w item))) = length (spots_left c w)
  ∧ non_winners (assign w item) = non_winners w.
Proof.
  intros Hinv Hc Hkey Hs. unfold assign.
  rewrite bool_decide_eq_false_2 by done.
  pose proof (inv_truthy _ _ _ _ Hinv) as [Ht1 Ht2]%Forall_app.
  rewrite Hc. destruct c; simpl in Hs.
  - destruct (car_spots w) as [|s rest] eqn:E; [done|].
    inversion_clear Ht1 as [|? ? Ht _]. rewrite Ht. simpl. by rewrite E.
  - destruct (moto_spots w) as [|s rest] eqn:E; [done|].
    inversion_clear Ht2 as [|? ? Ht _]. rewrite Ht. simpl. by rewrite E.
Qed.

Lemma all_win_from (items seen : list Item) (w : Walk) :
  walk_inv cars motos seen w →
  (length (filter (fun p => p.2 = c) (item_pair <$> items))
   ≤ length (spots_left c w))%nat →
  NoDup (filter (fun p => p.2 = c) (item_pair <$> (seen ++ items))) →
  of_category c (non_winners w) = [] →
  of_category c (non_winners (walk items w)) = [].
Proof.
  revert seen w.
  induction items as [|item items IH]; intros seen w Hinv Hlen Hnd Hnone;
    [done|].
  simpl. pose proof (assign_inv cars motos seen w item Hinv) as Hinv'.
  rewrite fmap_cons, filter_cons in Hlen.
  rewrite cons_middle, (assoc_L app) in Hnd.
  destruct (decide (Request.vehicle_type (request item) = c)) as [Hc|Hc].
  - rewrite decide_True in Hlen by done. simpl in Hlen.
    assert (assignment_key (user item) (request item)
            ∉ assigned_users_and_vehicle_types w) as Hkey.
    { intros Hin. apply (inv_assigned _ _ _ _ Hinv) in Hin.
      apply list_elem_of_fmap in Hin as [e [Ee He]]. symmetry in Ee.
      apply entry_pair_of_key in Ee.
      pose proof (winner_visited seen w e Hinv He) as Hv. rewrite Ee in Hv.
      rewrite !fmap_app, !filter_app in Hnd.
      apply NoDup_app in Hnd as [Hnd _]. apply NoDup_app in Hnd as [_ [Hnd _]].
      apply (Hnd (item_pair item)).
      - apply list_elem_of_filter. by split.
      - rewrite list_fmap_singleton, filter_cons, decide_True by done.
        apply list_elem_of_here. }
    assert (spots_left c w ≠ []) as Hs by (intros E; rewrite E in Hlen; simpl in Hlen; lia).
    destruct (assign_same seen w item Hinv Hc Hkey Hs) as [Hl Hn].
    apply (IH (seen ++ [item])); [done|lia|done|by rewrite Hn].
  - rewrite decide_False in Hlen by done.
    destruct (assign_other w item Hc) as [Hl Hn].
    apply (IH (seen ++ [item])); [done|by rewrite Hl|done|by rewrite Hn].
Qed.

End Enough.

(** ** What a successful run did *)

Section Runs.
Import LotteryService BaseRepository.

Lemma find_one_None {A} (query : A → bool) (collection : list A) :
  find_one query collection = None ↔ ∀ d, d ∈ collection → query d = false.
Proof.
  unfold find_one. rewrite head_None. split.
  - intros E d Hd. destruct (query d) eqn:Q; [|done].
    assert (d ∈ filter (fun d => query d = true) collection) as Hin
      by (by apply list_elem_of_filter).
    rewrite E in Hin. by apply elem_of_nil in Hin.
  - intros H. induction collection as [|x l IH]; [done|].
    rewrite filter_cons, decide_False.
    + apply IH. intros d Hd. apply H. by right.
    + rewrite (H x); [done|by left].
Qed.

Lemma find_one_Some {A} (query : A → bool) (collection : list A) (d : A) :
  find_one query collection = Some d → d ∈ collection ∧ query d = true.
Proof.
  unfold find_one. intros H%head_Some_elem_of. by apply list_elem_of_filter in H as [? ?].
Qed.

(** A run that returns a result went past the conflict check with valid
    input and stored the outcome of the walk over its ordered candidates;
    with no accepted request there was nobody to walk over. *)
Lemma execute_lottery_Ok (env : Env) (db : DB) (d : LotteryCreate.t)
    (res : LotteryResult.t) :
  result (execute_lottery env db d) = Ok res →
  LotteryCreate_valid d = true
  ∧ find_one (by_period (LotteryCreate.period d)) (lotteries db) = None
  ∧ ∃ items,
      res = produced env d (allocation d items)
      ∧ store (execute_lottery env db d)
        = {| lotteries := lotteries db ++ [res];
             requests := requests db; users := users db |}
      ∧ ((accepted_requests db (LotteryCreate.period d) = [] ∧ items = [])
         ∨ ∃ prev,
             _get_previous_period_non_winners db (LotteryCreate.period d) = Ok prev
             ∧ items = ordered_candidates env db (LotteryCreate.period d) prev).
Proof.
  unfold execute_lottery, LotteryCreate_valid, LotteryResult_new, create.
  destruct (find_one _ (lotteries db)) as [existing|]; [done|].
  destruct (accepted_requests db (LotteryCreate.period d)) as [|r reqs] eqn:Ea.
  - destruct (period_pattern _ && _ && _); [|done].
    destruct (forallb int64 _); [|done].
    simpl. intros [= <-]. split_and!; [done..|].
    exists []. split_and!; [done..|]. by left.
  - destruct (_get_previous_period_non_winners db _) as [prev|e] eqn:Ep; [|done].
    destruct (period_pattern _ && _ && _); [|done].
    destruct (forallb int64 _); [|done].
    simpl. intros [= <-]. split_and!; [done..|].
    exists (ordered_candidates env db (LotteryCreate.period d) prev).
    unfold ordered_candidates, scored_requests. rewrite Ea.
    split_and!; [done..|]. right. by exists prev.
Qed.

(** A run that returns a result stored totals that fit 8 bytes. *)
Lemma execute_lottery_fits (env : Env) (db : DB) (d : LotteryCreate.t)
    (res : LotteryResult.t) :
  result (execute_lottery env db d) = Ok res →
  int64 (LotteryCreate.num_car_spots d) = true
  ∧ int64 (LotteryCreate.num_moto_spots d) = true.
Proof.
  unfold execute_lottery, LotteryResult_new, create.
  destruct (find_one _ (lotteries db)) as [existing|]; [done|].
  assert (∀ ws ls,
    forallb int64
      (ints (LotteryResult.mk None (LotteryCreate.period d)
               (LotteryCreate.num_car_spots d) (LotteryCreate.num_moto_spots d)
               ws ls (utcnow env))) = true →
    int64 (LotteryCreate.num_car_spots d) = true
    ∧ int64 (LotteryCreate.num_moto_spots d) = true) as Hfit.
  { intros ws ls. simpl. intros [? [? _]%andb_prop]%andb_prop. done. }
  destruct (accepted_requests db (LotteryCreate.period d)) as [|r reqs].
  - destruct (period_pattern _ && _ && _); [|done].
    destruct (forallb int64 _) eqn:E; [|done]. intros _. by eapply Hfit.
  - destruct (_get_previous_period_non_winners db _) as [prev|e]; [|done].
    destruct (period_pattern _ && _ && _); [|done].
    destruct (forallb int64 _) eqn:E; [|done]. intros _. by eapply Hfit.
Qed.

Lemma participant_score (prev : list string) (item : Item) (sp : option string) :
  participant (score prev item) sp = participant item sp.
Proof. done. Qed.

(** The ordered candidates are the resolved accepted requests, rearranged
    and scored. *)
Lemma ordered_candidates_perm (env : Env) (db : DB) (period : string)
    (prev : list string) :
  ordered_candidates env db period prev
  ≡ₚ score prev <$> omap (candidate db) (accepted_requests db period).
Proof.
  unfold ordered_candidates, scored_requests.
  by rewrite final_sorted_requests_perm, requests_with_user_info_spec.
Qed.

(** In either case the walk went over the resolved accepted requests, in
    some order and with some scores. *)
Lemma run_items (env : Env) (db : DB) (d : LotteryCreate.t) (items : list Item) :
  (accepted_requests db (LotteryCreate.period d) = [] ∧ items = [])
  ∨ (∃ prev,
       _get_previous_period_non_winners db (LotteryCreate.period d) = Ok prev
       ∧ items = ordered_candidates env db (LotteryCreate.period d) prev) →
  ∃ prev, items ≡ₚ score prev
            <$> omap (candidate db) (accepted_requests db (LotteryCreate.period d)).
Proof.
  intros [[Ea ->]|[prev [_ ->]]].
  - exists []. by rewrite Ea.
  - exists prev. apply ordered_candidates_perm.
Qed.

Lemma allocation_inv (d : LotteryCreate.t) (items : list Item) :
  walk_inv
    (fst (_generate_spots (LotteryCreate.num_car_spots d) (LotteryCreate.num_moto_spots d)))
    (snd (_generate_spots (LotteryCreate.num_car_spots d) (LotteryCreate.num_moto_spots d)))
    items (allocation d items).
Proof.
  unfold allocation.
  set (spots := _generate_spots _ _).
  change items with ([] ++ items) at 1.
  apply walk_inv_from. destruct spots as [cars motos] eqn:E. simpl.
  apply start_inv. pose proof (generate_spots_truthy
    (LotteryCreate.num_car_spots d) (LotteryCreate.num_moto_spots d)) as Ht.
  fold spots in Ht. by rewrite E in Ht.
Qed.

End Runs.

(** ** Scores *)

Section Scores.
Import LotteryService.

Lemma score_spec (prev : list string) (item : Item) :
  priority_score (score prev item)
  = priority_score item
    + spec_score (Request.disability (request item))
        (bool_decide (User.id (user item) ∈ prev)) (Request.pay (request item)).
Proof.
  unfold score, spec_score. simpl.
  destruct (Request.disability _), (bool_decide _), (Request.pay _); lia.
Qed.

Lemma candidate_unscored (db : DB) (req : Request.t) (item : Item) :
  candidate db req = Some item → priority_score item = 0 ∧ request item = req.
Proof.
  unfold candidate.
  destruct (BaseRepository.get _ _); simpl; [|done]. by intros [= <-].
Qed.

(** Every scored candidate carries exactly its three weights. *)
Lemma scored_requests_spec (db : DB) (period : string) (prev : list string) :
  Forall (fun it =>
            priority_score it
            = spec_score (Request.disability (request it))
                (bool_decide (User.id (user it) ∈ prev))
                (Request.pay (request it)))
         (scored_requests db period prev).
Proof.
  unfold scored_requests. rewrite requests_with_user_info_spec.
  apply Forall_fmap, Forall_forall. intros it Hit. cbv [compose].
  apply list_elem_of_omap in Hit as [req [_ Hc]].
  apply candidate_unscored in Hc as [H0 _].
  rewrite score_spec, H0. done.
Qed.

Lemma spec_score_bounds (d b p : bool) :
  (d = true → 1000 ≤ spec_score d b p) ∧ (d = false → spec_score d b p ≤ 600).
Proof. unfold spec_score. destruct d, b, p; split; intros; lia || done. Qed.

(** In a list that is descending in the key, an earlier element never has
    the smaller key. *)
Lemma descending_lookup {A} (key : A → Z) (l : list A) (i j : nat) (x y : A) :
  descending key l → (i < j)%nat → l !! i = Some x → l !! j = Some y →
  key y ≤ key x.
Proof.
  intros Hd. revert i j. induction Hd as [|a l Hl IH Ha]; intros i j Hij Hi Hj.
  - done.
  - destruct j as [|j]; [lia|]. destruct i as [|i]; simpl in *.
    + injection Hi as ->. rewrite Forall_forall in Ha.
      apply Ha, list_elem_of_lookup. eauto.
    + apply (IH i j); [lia|done..].
Qed.

Lemma descending_fmap {A} (key : A → Z) (l l' : list A) :
  key <$> l = key <$> l' → descending key l' → descending key l.
Proof.
  unfold descending. revert l. intros l E Hd. revert l E.
  induction Hd as [|a l' Hl IH Ha]; intros l E.
  - apply fmap_nil_inv in E as ->. constructor.
  - destruct l as [|b l]; [done|].
    change (key b :: (key <$> l) = key a :: (key <$> l')) in E.
    injection E as Eb El.
    constructor; [by apply IH|].
    apply Forall_forall. intros z Hz.
    apply (list_elem_of_fmap_2 key) in Hz. rewrite El in Hz.
    apply list_elem_of_fmap in Hz as [z' [Hz' Hin]].
    rewrite Forall_forall in Ha. rewrite Eb.
    rewrite Hz'. by apply Ha.
Qed.

(** The final order is descending in the score, whatever the shuffles. *)
Lemma final_sorted_requests_descending (items : list Item) (g : Py.Random) :
  descending priority_score (final_sorted_requests items g).
Proof.
  eapply descending_fmap; [apply final_sorted_requests_scores|].
  apply sort_desc_descending.
Qed.

End Scores.

(** ** Totality and counting *)

Section Totals.
Import LotteryService BaseRepository.

Lemma run_count (cars motos : list string) (seen : list Item) (w : Walk) :
  walk_inv cars motos seen w →
  (length (winners w) + length (non_winners w))%nat = length seen.
Proof.
  intros Hinv. pose proof (inv_entries _ _ _ _ Hinv) as He.
  apply Permutation_length in He.
  by rewrite !length_fmap, length_app in He.
Qed.

(** With valid input whose totals fit 8 bytes, no stored result for the
    period and a period that parses, the run goes through. *)
Lemma execute_lottery_runs (env : Env) (db : DB) (d : LotteryCreate.t)
    (prev : list string) :
  LotteryCreate_valid d = true →
  int64 (LotteryCreate.num_car_spots d) = true →
  int64 (LotteryCreate.num_moto_spots d) = true →
  find_one (by_period (LotteryCreate.period d)) (lotteries db) = None →
  _get_previous_period_non_winners db (LotteryCreate.period d) = Ok prev →
  ∃ res, result (execute_lottery env db d) = Ok res.
Proof.
  unfold execute_lottery, LotteryCreate_valid, LotteryResult_new, create.
  intros -> Hc Hm -> ->.
  destruct (accepted_requests db _); simpl; rewrite Hc, Hm; simpl; eauto.
Qed.

(** A stored document is found under its own id, when that id is the
    print of an [ObjectId]. *)
Lemma get_stored (u : User.t) (collection : list User.t) :
  ObjectId (User.id u) = Some (User.id u) →
  u ∈ collection → is_Some (get (User.id u) collection).
Proof.
  intros Hid Hu. unfold get. rewrite Hid.
  destruct (head _) as [u'|] eqn:E; [by eexists|].
  apply head_None in E.
  assert (u ∈ filter (fun d => model_id d = Some (User.id u)) collection) as Hin
    by (by apply list_elem_of_filter).
  rewrite E in Hin. by apply elem_of_nil in Hin.
Qed.

Lemma filter_all {A} (P : A → Prop) `{∀ x, Decision (P x)} (l : list A) :
  Forall P l → filter P l = l.
Proof.
  induction 1 as [|x l Hx _ IH]; [done|].
  by rewrite filter_cons, decide_True, IH.
Qed.

Lemma filter_none {A} (P : A → Prop) `{∀ x, Decision (P x)} (l : list A) :
  Forall (fun x => ¬ P x) l → filter P l = [].
Proof.
  induction 1 as [|x l Hx _ IH]; [done|].
  by rewrite filter_cons, decide_False, IH.
Qed.

End Totals.

(** * The claims *)

Section Claims.
Import LotteryService BaseRepository.

(** C2. For every candidate the scorer computes exactly 1000 when the
    request's disability flag is set, plus 500 when the resident id is in
    the previous period's non-winner list, plus 100 when the dues-paid flag
    is set, and 0 when none is set; the score is a function of these three
    booleans and of nothing else in the request or the resident.  This holds
    of the scored list and of the final ordered list alike. *)
Theorem priority_score_is_weighted_sum (env : Env) (db : DB) (period : string)
    (prev : list string) :
  let weighted it :=
    priority_score it
    = spec_score (Request.disability (request it))
        (bool_decide (User.id (user it) ∈ prev)) (Request.pay (request it)) in
  Forall weighted (scored_requests db period prev)
  ∧ Forall weighted (ordered_candidates env db period prev)
  ∧ spec_score false false false = 0.
Proof.
  intros weighted. pose proof (scored_requests_spec db period prev) as Hs.
  split_and!; [done| |done].
  unfold ordered_candidates. by rewrite final_sorted_requests_perm.
Qed.

(** C3. When a result is already stored for the period, [execute_lottery]
    raises the 409 conflict naming a stored result, leaves the database
    exactly as it was, and sends nothing. *)
Theorem reexecution_is_rejected (env : Env) (db : DB) (d : LotteryCreate.t)
    (l : LotteryResult.t) :
  l ∈ lotteries db →
  LotteryResult.period l = LotteryCreate.period d →
  ∃ existing,
    existing ∈ lotteries db
    ∧ LotteryResult.period existing = LotteryCreate.period d
    ∧ execute_lottery env db d
      = {| result := Raise (HTTP_409_CONFLICT (LotteryCreate.period d)
                              (LotteryResult.id existing));
           store := db; outbox := [] |}.
Proof.
  intros Hl Hp.
  destruct (find_one (by_period (LotteryCreate.period d)) (lotteries db))
    as [existing|] eqn:E.
  - exists existing. apply find_one_Some in E as E'. destruct E' as [Hin Hq].
    apply bool_decide_eq_true in Hq. split_and!; [done..|].
    unfold execute_lottery. by rewrite E.
  - exfalso. rewrite find_one_None in E. specialize (E l Hl).
    by apply bool_decide_eq_false in E.
Qed.

Lemma reexecution_is_rejected_witness :
  ∃ existing,
    existing ∈ lotteries Sample.july_resolved
    ∧ LotteryResult.period existing = "2025-07"
    ∧ execute_lottery Sample.env Sample.july_resolved Sample.one_car
      = {| result := Raise (HTTP_409_CONFLICT "2025-07" (LotteryResult.id existing));
           store := Sample.july_resolved; outbox := [] |}.
Proof.
  apply (reexecution_is_rejected Sample.env Sample.july_resolved Sample.one_car
           SampleRuns.july_result).
  - vm_compute. apply list_elem_of_here.
  - reflexivity.
Defined.

(** C9 (as stated, at a database with no accepted request for July and a
    car total of 2^63, which the schema accepts): the run fails, the driver
    raising [OverflowError] on insertion; nothing is returned and nothing
    is stored. *)
Lemma total_beyond_8_bytes_is_not_recorded :
  LotteryCreate_valid Sample.beyond_8_bytes = true
  ∧ lotteries Sample.july_idle = []
  ∧ accepted_requests Sample.july_idle (LotteryCreate.period Sample.beyond_8_bytes) = []
  ∧ execute_lottery Sample.env Sample.july_idle Sample.beyond_8_bytes
    = {| result := Raise OverflowError; store := Sample.july_idle; outbox := [] |}
  ∧ ¬ (∃ res,
         result (execute_lottery Sample.env Sample.july_idle Sample.beyond_8_bytes)
         = Ok res
         ∧ res ∈ lotteries (store (execute_lottery Sample.env Sample.july_idle
                                     Sample.beyond_8_bytes))
         ∧ LotteryResult.winners res = [] ∧ LotteryResult.non_winners res = []
         ∧ LotteryResult.total_car_spots_offered res
           = LotteryCreate.num_car_spots Sample.beyond_8_bytes
         ∧ LotteryResult.total_moto_spots_offered res
           = LotteryCreate.num_moto_spots Sample.beyond_8_bytes).
Proof.
  assert (execute_lottery Sample.env Sample.july_idle Sample.beyond_8_bytes
          = {| result := Raise OverflowError; store := Sample.july_idle;
               outbox := [] |}) as E by (vm_compute; reflexivity).
  split_and!; [reflexivity|reflexivity|reflexivity|exact E|].
  rewrite E. by intros [res [? _]].
Qed.

(** C9 (amended). With valid input, no result stored for the period and no
    accepted request for it: when the two offered totals fit 8 bytes (they
    are at most 2^63 - 1), [execute_lottery] returns and stores a result
    with empty winner and non-winner lists and the two totals as supplied,
    and sends nothing; when one of them does not, the insertion raises
    [OverflowError], nothing is stored and nothing is sent. *)
Theorem empty_period_is_recorded (env : Env) (db : DB) (d : LotteryCreate.t) :
  LotteryCreate_valid d = true →
  (∀ l, l ∈ lotteries db → LotteryResult.period l ≠ LotteryCreate.period d) →
  (∀ r, r ∈ requests db →
        ¬ (Request.lottery_period r = LotteryCreate.period d
           ∧ Request.status r = accepted)) →
  let fit :=
    LotteryCreate.num_car_spots d ≤ 9223372036854775807
    ∧ LotteryCreate.num_moto_spots d ≤ 9223372036854775807 in
  let res :=
    LotteryResult.mk (Some (new_oid env)) (LotteryCreate.period d)
      (LotteryCreate.num_car_spots d) (LotteryCreate.num_moto_spots d) [] []
      (utcnow env) in
  (fit →
   execute_lottery env db d
   = {| result := Ok res;
        store := {| lotteries := lotteries db ++ [res];
                    requests := requests db; users := users db |};
        outbox := [] |})
  ∧ (¬ fit →
     execute_lottery env db d
     = {| result := Raise OverflowError; store := db; outbox := [] |}).
Proof.
  intros Hv Hl Hr fit res.
  assert (find_one (by_period (LotteryCreate.period d)) (lotteries db) = None) as E.
  { apply find_one_None. intros l Hin. apply bool_decide_eq_false. by apply Hl. }
  assert (accepted_requests db (LotteryCreate.period d) = []) as Ea.
  { unfold accepted_requests, find_many. rewrite filter_none; [done|].
    apply Forall_forall. intros r Hin Hq. apply (Hr r Hin).
    unfold accepted_query in Hq. apply andb_prop in Hq as [H1 H2].
    split; [by apply bool_decide_eq_true in H1 | by apply bool_decide_eq_true in H2]. }
  unfold execute_lottery, LotteryResult_new, create. rewrite E, Ea.
  unfold LotteryCreate_valid in Hv. rewrite Hv.
  apply andb_prop in Hv as [[_ Hc%Z.leb_le]%andb_prop Hm%Z.leb_le].
  cbn [ints LotteryResult_Model LotteryResult.total_car_spots_offered
         LotteryResult.total_moto_spots_offered forallb].
  unfold fit, int64. split.
  - intros [Fc Fm].
    rewrite (proj2 (Z.leb_le _ (LotteryCreate.num_car_spots d))) by lia.
    rewrite (proj2 (Z.leb_le (LotteryCreate.num_car_spots d) _)) by lia.
    rewrite (proj2 (Z.leb_le _ (LotteryCreate.num_moto_spots d))) by lia.
    rewrite (proj2 (Z.leb_le (LotteryCreate.num_moto_spots d) _)) by lia.
    reflexivity.
  - intros Hn.
    destruct (LotteryCreate.num_car_spots d <=? 9223372036854775807) eqn:Fc;
      [|by rewrite andb_false_r].
    destruct (LotteryCreate.num_moto_spots d <=? 9223372036854775807) eqn:Fm;
      [|by rewrite !andb_false_r].
    apply Z.leb_le in Fc, Fm. by destruct Hn.
Qed.

Lemma empty_period_is_recorded_witness :
  execute_lottery Sample.env Sample.july_idle Sample.five_three
  = {| result := Ok SampleRuns.idle_result;
       store := {| lotteries := [SampleRuns.idle_result];
                   requests := requests Sample.july_idle;
                   users := users Sample.july_idle |};
       outbox := [] |}.
Proof.
  apply (empty_period_is_recorded Sample.env Sample.july_idle Sample.five_three).
  - reflexivity.
  - intros l Hl. vm_compute in Hl. by apply elem_of_nil in Hl.
  - intros r Hr [_ Hs]. apply list_elem_of_singleton in Hr. subst r. discriminate Hs.
  - split; vm_compute; discriminate.
Defined.

(** C10. In every result [execute_lottery] produces, each winner has a spot
    and each non-winner has none: an entry of the result is a winner exactly
    when its spot is not null. *)
Theorem spot_iff_winner (env : Env) (db : DB) (d : LotteryCreate.t)
    (res : LotteryResult.t) :
  result (execute_lottery env db d) = Ok res →
  Forall (fun e => LotteryParticipantResult.spot e ≠ None) (LotteryResult.winners res)
  ∧ Forall (fun e => LotteryParticipantResult.spot e = None)
           (LotteryResult.non_winners res)
  ∧ ∀ e, e ∈ LotteryResult.winners res ++ LotteryResult.non_winners res →
         (e ∈ LotteryResult.winners res ↔ LotteryParticipantResult.spot e ≠ None).
Proof.
  intros Hres. apply execute_lottery_Ok in Hres as (_ & _ & items & -> & _ & _).
  pose proof (allocation_inv d items) as Hinv. simpl.
  pose proof (inv_winners _ _ _ _ Hinv) as Hw.
  pose proof (inv_non_winners _ _ _ _ Hinv) as Hn.
  assert (Forall (fun e => LotteryParticipantResult.spot e ≠ None)
                 (winners (allocation d items))) as Hw'.
  { eapply Forall_impl; [exact Hw|]. simpl. intros e He E. by rewrite E in He. }
  split_and!; [done..|].
  intros e [He|He]%elem_of_app.
  - split; [|done]. intros _. rewrite Forall_forall in Hw'. by apply Hw'.
  - split.
    + intros Hin. rewrite Forall_forall in Hw'. by apply Hw'.
    + intros Hs. rewrite Forall_forall in Hn. by rewrite (Hn e He) in Hs.
Qed.

Lemma spot_iff_winner_witness :
  result (execute_lottery Sample.env Sample.july Sample.one_car)
  = Ok SampleRuns.july_result
  ∧ Forall (fun e => LotteryParticipantResult.spot e ≠ None)
           (LotteryResult.winners SampleRuns.july_result)
  ∧ Forall (fun e => LotteryParticipantResult.spot e = None)
           (LotteryResult.non_winners SampleRuns.july_result)
  ∧ ∀ e, e ∈ LotteryResult.winners SampleRuns.july_result
             ++ LotteryResult.non_winners SampleRuns.july_result →
         (e ∈ LotteryResult.winners SampleRuns.july_result
          ↔ LotteryParticipantResult.spot e ≠ None).
Proof.
  split; [vm_compute; reflexivity|].
  apply (spot_iff_winner Sample.env Sample.july Sample.one_car).
  vm_compute. reflexivity.
Defined.

End Claims.


(** ** Spots of the winners *)

Section WinnerSpots.
Import LotteryService.

Lemma of_category_split (es : list LotteryParticipantResult.t) :
  es ≡ₚ of_category automovil es ++ of_category motocicleta es.
Proof.
  unfold of_category. induction es as [|e es IH]; [done|].
  rewrite !filter_cons.
  destruct (LotteryParticipantResult.vehicle_type e) eqn:E;
    repeat case_decide; try congruence; simpl.
  - by rewrite <- IH.
  - rewrite <- Permutation_middle. by rewrite <- IH.
Qed.

Lemma winner_spots_NoDup (cars motos : list string) (seen : list Item) (w : Walk) :
  walk_inv cars motos seen w → NoDup (cars ++ motos) →
  NoDup (LotteryParticipantResult.spot <$> winners w).
Proof.
  intros Hinv Hnd.
  rewrite (of_category_split (winners w)), fmap_app.
  assert (NoDup (Some <$> (cars ++ motos))) as Hs.
  { apply NoDup_fmap_2; [apply _|done]. }
  rewrite fmap_app, <- (inv_cars _ _ _ _ Hinv), <- (inv_motos _ _ _ _ Hinv) in Hs.
  eapply sublist_NoDup; [exact Hs|].
  apply sublist_app; by apply sublist_inserts_r.
Qed.

Lemma winner_spots_offered (cars motos : list string) (seen : list Item) (w : Walk)
    (e : LotteryParticipantResult.t) :
  walk_inv cars motos seen w → e ∈ winners w →
  ∃ s, LotteryParticipantResult.spot e = Some s
       ∧ s ∈ spots_left (LotteryParticipantResult.vehicle_type e)
               {| car_spots := cars; moto_spots := motos; winners := [];
                  non_winners := []; assigned_users_and_vehicle_types := ∅ |}.
Proof.
  intros Hinv He.
  assert (LotteryParticipantResult.spot e
          ∈ LotteryParticipantResult.spot
              <$> of_category (LotteryParticipantResult.vehicle_type e) (winners w))
    as Hin.
  { apply list_elem_of_fmap. exists e. split; [done|].
    unfold of_category. by apply list_elem_of_filter. }
  destruct (LotteryParticipantResult.vehicle_type e); simpl.
  - assert (LotteryParticipantResult.spot e ∈ Some <$> cars) as Hs.
    { rewrite <- (inv_cars _ _ _ _ Hinv). apply elem_of_app. by left. }
    apply list_elem_of_fmap in Hs as [s [Es Hs]]. by exists s.
  - assert (LotteryParticipantResult.spot e ∈ Some <$> motos) as Hs.
    { rewrite <- (inv_motos _ _ _ _ Hinv). apply elem_of_app. by left. }
    apply list_elem_of_fmap in Hs as [s [Es Hs]]. by exists s.
Qed.

End WinnerSpots.

Section ClaimsOrdering.
Import LotteryService BaseRepository.

(** C7. In the final ordered candidate list of a run, a candidate whose
    request has the disability flag stands before every candidate whose
    request does not, whatever draws the shuffle receives. *)
Theorem disability_precedes (env : Env) (db : DB) (period : string)
    (prev : list string) (i j : nat) (x y : Item) :
  ordered_candidates env db period prev !! i = Some x →
  ordered_candidates env db period prev !! j = Some y →
  Request.disability (request x) = true →
  Request.disability (request y) = false →
  (i < j)%nat.
Proof.
  intros Hi Hj Hx Hy.
  assert (Forall (fun it => priority_score it
            = spec_score (Request.disability (request it))
                (bool_decide (User.id (user it) ∈ prev)) (Request.pay (request it)))
            (ordered_candidates env db period prev)) as Hw.
  { unfold ordered_candidates. rewrite final_sorted_requests_perm.
    apply scored_requests_spec. }
  rewrite Forall_lookup in Hw.
  pose proof (Hw _ _ Hi) as Sx. pose proof (Hw _ _ Hj) as Sy.
  rewrite Hx in Sx. rewrite Hy in Sy.
  pose proof (proj1 (spec_score_bounds true (bool_decide (User.id (user x) ∈ prev))
                       (Request.pay (request x))) eq_refl) as Bx.
  pose proof (proj2 (spec_score_bounds false (bool_decide (User.id (user y) ∈ prev))
                       (Request.pay (request y))) eq_refl) as By.
  destruct (decide (i < j)%nat) as [|Hn]; [done|exfalso].
  destruct (decide (i = j)) as [->|Hne].
  - rewrite Hi in Hj. injection Hj as ->. congruence.
  - assert (j < i)%nat as Hlt by lia.
    pose proof (descending_lookup priority_score _ j i y x
                  (final_sorted_requests_descending _ _) Hlt Hj Hi) as Hd.
    lia.
Qed.

Lemma disability_precedes_witness :
  ordered_candidates Sample.env Sample.july "2025-07" [] !! 0%nat
  = Some (Build_Item Sample.luis_car Sample.luis 1000)
  ∧ ordered_candidates Sample.env Sample.july "2025-07" [] !! 1%nat
    = Some (Build_Item Sample.ana_car Sample.ana 100)
  ∧ (0 < 1)%nat.
Proof.
  split_and!; [vm_compute; reflexivity..|].
  apply (disability_precedes Sample.env Sample.july "2025-07" [] 0 1
           (Build_Item Sample.luis_car Sample.luis 1000)
           (Build_Item Sample.ana_car Sample.ana 100));
    vm_compute; reflexivity.
Defined.

(** C8. The generator returns, for the two counts, two lists of exactly
    those lengths, numbered in order, with no identifier twice in either or
    across both; and in every result [execute_lottery] produces no spot is
    held by two winners, each winner's spot being one of the generated
    identifiers of the winner's vehicle category. *)
Theorem winner_spots_are_distinct (env : Env) (db : DB) (d : LotteryCreate.t)
    (res : LotteryResult.t) :
  result (execute_lottery env db d) = Ok res →
  let cars := fst (_generate_spots (LotteryCreate.num_car_spots d)
                     (LotteryCreate.num_moto_spots d)) in
  let motos := snd (_generate_spots (LotteryCreate.num_car_spots d)
                      (LotteryCreate.num_moto_spots d)) in
  0 ≤ LotteryCreate.num_car_spots d ∧ 0 ≤ LotteryCreate.num_moto_spots d
  ∧ cars = car_spot <$> Py.range (LotteryCreate.num_car_spots d)
  ∧ motos = moto_spot <$> Py.range (LotteryCreate.num_moto_spots d)
  ∧ Z.of_nat (length cars) = LotteryCreate.num_car_spots d
  ∧ Z.of_nat (length motos) = LotteryCreate.num_moto_spots d
  ∧ NoDup (cars ++ motos)
  ∧ NoDup (LotteryParticipantResult.spot <$> LotteryResult.winners res)
  ∧ ∀ e, e ∈ LotteryResult.winners res →
         ∃ s, LotteryParticipantResult.spot e = Some s
              ∧ s ∈ match LotteryParticipantResult.vehicle_type e with
                    | automovil => cars
                    | motocicleta => motos
                    end.
Proof.
  intros Hres cars motos.
  apply execute_lottery_Ok in Hres as (Hv & _ & items & -> & _ & _).
  pose proof (allocation_inv d items) as Hinv. fold cars motos in Hinv.
  unfold LotteryCreate_valid in Hv.
  apply andb_prop in Hv as [[_ Hc%Z.leb_le]%andb_prop Hm%Z.leb_le].
  pose proof (generate_spots_length (LotteryCreate.num_car_spots d)
                (LotteryCreate.num_moto_spots d)) as [Lc Lm].
  fold cars in Lc. fold motos in Lm.
  split_and!; [done|done|done|done|lia|lia| | |].
  - apply generate_spots_NoDup.
  - simpl. eapply winner_spots_NoDup; [exact Hinv|apply generate_spots_NoDup].
  - simpl. intros e He.
    destruct (winner_spots_offered _ _ _ _ e Hinv He) as [s [Es Hs]].
    exists s. split; [done|].
    by destruct (LotteryParticipantResult.vehicle_type e).
Qed.

Lemma winner_spots_are_distinct_witness :
  result (execute_lottery Sample.env Sample.july Sample.one_car)
  = Ok SampleRuns.july_result
  ∧ _generate_spots 1 0 = (["C-01"], [])
  ∧ NoDup (LotteryParticipantResult.spot
             <$> LotteryResult.winners SampleRuns.july_result)
  ∧ LotteryParticipantResult.spot
      <$> LotteryResult.winners SampleRuns.july_result = [Some "C-01"].
Proof.
  split_and!; [vm_compute; reflexivity|reflexivity| |vm_compute; reflexivity].
  destruct (winner_spots_are_distinct Sample.env Sample.july Sample.one_car
              SampleRuns.july_result) as (_ & _ & _ & _ & _ & _ & _ & H & _).
  - vm_compute. reflexivity.
  - exact H.
Defined.

End ClaimsOrdering.

Section ClaimsCarryForward.
Import LotteryService BaseRepository.

(** C5. For the period of calendar month [m] of year [y], the resolver
    looks at the month before (December of the year before when [m] is
    January), returns the resident ids of the non-winners of the result
    stored for that month, and returns the empty list, without raising,
    when no result is stored for it; so the 500 points go exactly to the
    residents listed as non-winners of the month immediately before, and
    what older results list has no part in the score. *)
Theorem carry_forward_reads_prior_month (db : DB) (y m : Z) :
  0 ≤ y ≤ 9999 → 1 ≤ m ≤ 12 →
  let prior := if m =? 1 then format_period (y - 1) 12 else format_period y (m - 1) in
  previous_period (format_period y m) = Ok prior
  ∧ _get_previous_period_non_winners db (format_period y m)
    = Ok match find_one (by_period prior) (lotteries db) with
         | Some l => LotteryParticipantResult.user_id <$> LotteryResult.non_winners l
         | None => []
         end
  ∧ (find_one (by_period prior) (lotteries db) = None
     ↔ ∀ l, l ∈ lotteries db → LotteryResult.period l ≠ prior)
  ∧ ∀ prev, _get_previous_period_non_winners db (format_period y m) = Ok prev →
      ∀ item,
        priority_score (score prev item)
        = priority_score item
          + spec_score (Request.disability (request item))
              (listed_non_winner db prior (User.id (user item)))
              (Request.pay (request item)).
Proof.
  intros Hy Hm prior.
  assert (previous_period (format_period y m) = Ok prior) as Ep.
  { rewrite previous_period_format by lia. done. }
  assert (_get_previous_period_non_winners db (format_period y m)
          = Ok match find_one (by_period prior) (lotteries db) with
               | Some l =>
                   LotteryParticipantResult.user_id <$> LotteryResult.non_winners l
               | None => []
               end) as Eg.
  { unfold _get_previous_period_non_winners. rewrite Ep.
    destruct (find_one _ _) as [l|]; [|done].
    by destruct (LotteryResult.non_winners l). }
  split_and!; [done|done| |].
  - rewrite find_one_None. split; intros H l Hl; specialize (H l Hl).
    + by apply bool_decide_eq_false in H.
    + by apply bool_decide_eq_false.
  - intros prev Hprev item. rewrite Eg in Hprev. injection Hprev as <-.
    rewrite score_spec. unfold listed_non_winner.
    by destruct (find_one _ _).
Qed.

Lemma carry_forward_reads_prior_month_witness :
  (0 ≤ 2025 ≤ 9999) ∧ (1 ≤ 8 ≤ 12)
  ∧ previous_period "2025-08" = Ok "2025-07"
  ∧ _get_previous_period_non_winners Sample.july_resolved "2025-08"
    = Ok (LotteryParticipantResult.user_id
            <$> LotteryResult.non_winners SampleRuns.july_result).
Proof.
  destruct (carry_forward_reads_prior_month Sample.july_resolved 2025 8)
    as (Hp & Hg & _ & _); [lia|lia|].
  split; [lia|]. split; [lia|]. split; [exact Hp|].
  etransitivity; [exact Hg|]. vm_compute. reflexivity.
Defined.

End ClaimsCarryForward.

(** ** Entries and candidates *)

Section Entries.
Import LotteryService.

Lemma filter_fmap_comm {A B} (f : A → B) (P : B → Prop) `{∀ y, Decision (P y)}
    (l : list A) :
  filter P (f <$> l) = f <$> filter (fun x => P (f x)) l.
Proof.
  induction l as [|x l IH]; [done|].
  rewrite fmap_cons, !filter_cons. case_decide; by rewrite ?fmap_cons, IH.
Qed.

Lemma item_pair_score (prev : list string) (l : list Item) :
  item_pair <$> (score prev <$> l) = item_pair <$> l.
Proof. rewrite <- list_fmap_compose. by apply list_fmap_ext. Qed.

(** Every visited candidate left one entry, under its own pair. *)
Lemma entries_pairs (cars motos : list string) (seen : list Item) (w : Walk) :
  walk_inv cars motos seen w →
  entry_pair <$> (winners w ++ non_winners w) ≡ₚ item_pair <$> seen.
Proof.
  intros Hinv. pose proof (inv_entries _ _ _ _ Hinv) as He.
  transitivity (entry_pair <$> (unassigned <$> (winners w ++ non_winners w))).
  { by rewrite <- list_fmap_compose. }
  by rewrite He, <- list_fmap_compose.
Qed.

(** ... and under its own request id. *)
Lemma entries_requests (cars motos : list string) (seen : list Item) (w : Walk) :
  walk_inv cars motos seen w →
  LotteryParticipantResult.request_id <$> (winners w ++ non_winners w)
  ≡ₚ (fun it => Request.id (request it)) <$> seen.
Proof.
  intros Hinv. pose proof (inv_entries _ _ _ _ Hinv) as He.
  transitivity (LotteryParticipantResult.request_id
                  <$> (unassigned <$> (winners w ++ non_winners w))).
  { by rewrite <- list_fmap_compose. }
  by rewrite He, <- list_fmap_compose.
Qed.

Lemma winner_pairs_NoDup (cars motos : list string) (seen : list Item) (w : Walk) :
  walk_inv cars motos seen w → NoDup (entry_pair <$> winners w).
Proof.
  intros Hinv. pose proof (inv_keys _ _ _ _ Hinv) as Hk.
  apply (NoDup_fmap_1 (fun p : string * VehicleType => p.1 +:+ "_" +:+ VehicleType_str p.2)).
  rewrite <- list_fmap_compose.
  erewrite list_fmap_ext; [exact Hk|]. done.
Qed.

End Entries.

Section ClaimsPairs.
Import LotteryService BaseRepository.

(** C1 (as stated, at the database holding two accepted car requests of
    one resident): the pair of that resident and [automovil] appears twice
    among the winners and non-winners of the result. *)
Lemma duplicate_request_is_listed_twice :
  result (execute_lottery Sample.env Sample.july_twice Sample.two_cars)
  = Ok SampleTwice.twice_result
  ∧ ¬ NoDup (entry_pair
               <$> (LotteryResult.winners SampleTwice.twice_result
                      ++ LotteryResult.non_winners SampleTwice.twice_result)).
Proof.
  split; [vm_compute; reflexivity|].
  intros H. apply (bool_decide_pack _) in H. vm_compute in H. done.
Qed.

(** C1 (amended). In every result [execute_lottery] produces, no pair of
    resident and vehicle category appears twice among the winners; the
    winners and non-winners together carry one entry for each processed
    request, under that request's pair, so a pair is repeated among them
    exactly as often as among the processed requests, and not at all when
    the processed requests have pairwise distinct pairs. *)
Theorem winner_pairs_are_distinct (env : Env) (db : DB) (d : LotteryCreate.t)
    (res : LotteryResult.t) :
  result (execute_lottery env db d) = Ok res →
  let processed := omap (candidate db) (accepted_requests db (LotteryCreate.period d)) in
  NoDup (entry_pair <$> LotteryResult.winners res)
  ∧ entry_pair <$> (LotteryResult.winners res ++ LotteryResult.non_winners res)
    ≡ₚ item_pair <$> processed
  ∧ (NoDup (item_pair <$> processed) →
     NoDup (entry_pair
              <$> (LotteryResult.winners res ++ LotteryResult.non_winners res))).
Proof.
  intros Hres processed.
  apply execute_lottery_Ok in Hres as (_ & _ & items & -> & _ & Hitems).
  pose proof (allocation_inv d items) as Hinv.
  apply (run_items env) in Hitems as [prev Hperm]. simpl.
  assert (entry_pair <$> (winners (allocation d items)
                            ++ non_winners (allocation d items))
          ≡ₚ item_pair <$> processed) as Hp.
  { rewrite (entries_pairs _ _ _ _ Hinv), Hperm. by rewrite item_pair_score. }
  split_and!.
  - by eapply winner_pairs_NoDup.
  - done.
  - intros Hnd. by rewrite Hp.
Qed.

Lemma winner_pairs_are_distinct_witness :
  result (execute_lottery Sample.env Sample.july_twice Sample.two_cars)
  = Ok SampleTwice.twice_result
  ∧ NoDup (entry_pair <$> LotteryResult.winners SampleTwice.twice_result).
Proof.
  split; [vm_compute; reflexivity|].
  destruct (winner_pairs_are_distinct Sample.env Sample.july_twice Sample.two_cars
              SampleTwice.twice_result) as (H & _ & _).
  - vm_compute. reflexivity.
  - exact H.
Defined.

End ClaimsPairs.

(** ** Winners of one category *)

Section Category.
Import LotteryService.

Lemma winners_of_category_length (cars motos : list string) (seen : list Item)
    (w : Walk) (c : VehicleType) :
  walk_inv cars motos seen w →
  (length (of_category c (winners w)) + length (spots_left c w))%nat
  = length (spots_left c (start (cars, motos))).
Proof.
  intros Hinv. destruct c; simpl.
  - pose proof (f_equal length (inv_cars _ _ _ _ Hinv)) as E.
    by rewrite length_app, !length_fmap in E.
  - pose proof (f_equal length (inv_motos _ _ _ _ Hinv)) as E.
    by rewrite length_app, !length_fmap in E.
Qed.

Lemma spots_offered (d : LotteryCreate.t) (c : VehicleType) :
  length (spots_left c (start (_generate_spots (LotteryCreate.num_car_spots d)
                                 (LotteryCreate.num_moto_spots d))))
  = Z.to_nat (offered d c).
Proof.
  pose proof (generate_spots_length (LotteryCreate.num_car_spots d)
                (LotteryCreate.num_moto_spots d)) as [Lc Lm].
  by destruct c.
Qed.

Lemma pairs_of_category (c : VehicleType) (l : list Item) :
  filter (fun p : string * VehicleType => p.2 = c) (item_pair <$> l)
  = item_pair <$> items_of_category c l.
Proof. unfold items_of_category. by rewrite filter_fmap_comm. Qed.

Lemma items_of_category_perm (c : VehicleType) (l k : list Item) :
  l ≡ₚ k → items_of_category c l ≡ₚ items_of_category c k.
Proof. unfold items_of_category. by intros ->. Qed.

Lemma items_of_category_score (c : VehicleType) (prev : list string) (l : list Item) :
  items_of_category c (score prev <$> l) = score prev <$> items_of_category c l.
Proof. unfold items_of_category. by rewrite filter_fmap_comm. Qed.

(** The entries of one category are the visited candidates of that
    category. *)
Lemma entries_of_category (cars motos : list string) (seen : list Item) (w : Walk)
    (c : VehicleType) :
  walk_inv cars motos seen w →
  LotteryParticipantResult.request_id
    <$> (of_category c (winners w) ++ of_category c (non_winners w))
  ≡ₚ (fun it => Request.id (request it)) <$> items_of_category c seen.
Proof.
  intros Hinv. pose proof (inv_entries _ _ _ _ Hinv) as He.
  assert (of_category c (unassigned <$> (winners w ++ non_winners w))
          ≡ₚ of_category c ((fun it => participant it None) <$> seen)) as Hc.
  { unfold of_category. by rewrite He. }
  unfold of_category in Hc. rewrite !filter_fmap_comm in Hc.
  apply (fmap_Permutation LotteryParticipantResult.request_id) in Hc.
  rewrite <- !list_fmap_compose in Hc.
  unfold of_category, items_of_category. rewrite <- filter_app.
  etransitivity; [|exact Hc]. done.
Qed.

End Category.

Section ClaimsCategory.
Import LotteryService BaseRepository.

(** C4 (as stated, at the database holding two accepted car requests of
    one resident, two car spots on offer): the accepted car requests are
    no more than the car spots, yet not every one of them is recorded as a
    winner; the second is a non-winner. *)
Lemma repeated_request_loses_with_a_spot_free :
  result (execute_lottery Sample.env Sample.july_twice Sample.two_cars)
  = Ok SampleTwice.twice_result
  ∧ ¬ (let accepted_cars :=
         filter (fun r => Request.vehicle_type r = automovil)
           (filter (fun r => Request.lottery_period r = "2025-07"
                             ∧ Request.status r = accepted)
                   (requests Sample.july_twice)) in
       Z.of_nat (length accepted_cars) ≤ offered Sample.two_cars automovil →
       Forall (fun r => Request.id r
                        ∈ LotteryParticipantResult.request_id
                            <$> LotteryResult.winners SampleTwice.twice_result)
              accepted_cars).
Proof.
  split; [vm_compute; reflexivity|].
  intros H. assert (Hle : (2 <=? 2) = true) by reflexivity.
  apply Z.leb_le in Hle. apply H in Hle.
  apply (bool_decide_pack _) in Hle. vm_compute in Hle. done.
Qed.

(** C4 (amended). In every result [execute_lottery] produces, the winners
    of a vehicle category are no more than the spots offered for it; and
    when the processed requests of the category come from pairwise
    distinct residents and are no more than the spots offered for it, no
    entry of the category is a non-winner and the winners of the category
    are exactly those requests. *)
Theorem winners_within_offer (env : Env) (db : DB) (d : LotteryCreate.t)
    (res : LotteryResult.t) (c : VehicleType) :
  result (execute_lottery env db d) = Ok res →
  let in_category :=
    items_of_category c
      (omap (candidate db) (accepted_requests db (LotteryCreate.period d))) in
  Z.of_nat (length (of_category c (LotteryResult.winners res))) ≤ offered d c
  ∧ (NoDup ((fun it => User.id (user it)) <$> in_category) →
     Z.of_nat (length in_category) ≤ offered d c →
     of_category c (LotteryResult.non_winners res) = []
     ∧ LotteryParticipantResult.request_id
         <$> of_category c (LotteryResult.winners res)
       ≡ₚ (fun it => Request.id (request it)) <$> in_category).
Proof.
  intros Hres in_category.
  apply execute_lottery_Ok in Hres as (Hv & _ & items & -> & _ & Hitems).
  pose proof (allocation_inv d items) as Hinv.
  apply (run_items env) in Hitems as [prev Hperm]. simpl.
  pose proof (winners_of_category_length _ _ _ _ c Hinv) as Hlen.
  rewrite <- surjective_pairing, spots_offered in Hlen.
  unfold LotteryCreate_valid in Hv.
  apply andb_prop in Hv as [[_ Hc%Z.leb_le]%andb_prop Hm%Z.leb_le].
  assert (0 ≤ offered d c) as Hoff by (by destruct c).
  split; [lia|]. intros Hnd Hfew.
  assert (items_of_category c items ≡ₚ score prev <$> in_category) as Hcat.
  { rewrite (items_of_category_perm c _ _ Hperm). by rewrite items_of_category_score. }
  assert (item_pair <$> items_of_category c items ≡ₚ item_pair <$> in_category) as Hpairs.
  { rewrite Hcat. by rewrite item_pair_score. }
  assert (of_category c (non_winners (allocation d items)) = []) as Hnone.
  { unfold allocation.
    apply (all_win_from
             (fst (_generate_spots (LotteryCreate.num_car_spots d)
                     (LotteryCreate.num_moto_spots d)))
             (snd (_generate_spots (LotteryCreate.num_car_spots d)
                     (LotteryCreate.num_moto_spots d)))
             c items []).
    - rewrite (surjective_pairing (_generate_spots _ _)). simpl.
      apply start_inv, generate_spots_truthy.
    - rewrite spots_offered, pairs_of_category, Hpairs, length_fmap. lia.
    - simpl. rewrite pairs_of_category, Hpairs.
      apply (NoDup_fmap_1 fst). rewrite <- list_fmap_compose. exact Hnd.
    - done. }
  split; [done|].
  pose proof (entries_of_category _ _ _ _ c Hinv) as He.
  rewrite Hnone, app_nil_r in He. rewrite He, Hcat.
  rewrite <- list_fmap_compose. done.
Qed.

Lemma winners_within_offer_witness :
  result (execute_lottery Sample.env Sample.july Sample.two_cars)
  = Ok (produced Sample.env Sample.two_cars
          (allocation Sample.two_cars
             (ordered_candidates Sample.env Sample.july "2025-07" [])))
  ∧ Z.of_nat (length (of_category automovil
        (winners (allocation Sample.two_cars
                    (ordered_candidates Sample.env Sample.july "2025-07" [])))))
    ≤ offered Sample.two_cars automovil
  ∧ of_category automovil
      (non_winners (allocation Sample.two_cars
                      (ordered_candidates Sample.env Sample.july "2025-07" [])))
    = [].
Proof.
  split; [vm_compute; reflexivity|].
  destruct (winners_within_offer Sample.env Sample.july Sample.two_cars
              (produced Sample.env Sample.two_cars
                 (allocation Sample.two_cars
                    (ordered_candidates Sample.env Sample.july "2025-07" [])))
              automovil) as (Hle & Hall).
  - vm_compute. reflexivity.
  - split; [exact Hle|]. apply Hall.
    + vm_compute. apply (bool_decide_unpack _). vm_compute. reflexivity.
    + vm_compute. discriminate.
Defined.

End ClaimsCategory.


(** ** Loading the requests *)

Section Loading.
Import LotteryService BaseRepository.

Lemma accepted_requests_spec (db : DB) (period : string) :
  accepted_requests db period
  = take 1000 (filter (fun r => Request.lottery_period r = period
                                ∧ Request.status r = accepted) (requests db)).
Proof.
  unfold accepted_requests, find_many. rewrite drop_0. f_equal.
  apply list_filter_iff. intros r. unfold accepted_query.
  rewrite andb_true_iff, !bool_decide_eq_true. done.
Qed.

Lemma candidate_None (db : DB) (r : Request.t) :
  candidate db r = None ↔ get (Request.user_id r) (users db) = None.
Proof. unfold candidate. apply fmap_None. Qed.

Lemma resolved_requests (db : DB) (l : list Request.t) :
  request <$> omap (candidate db) l
  = filter (fun r => is_Some (get (Request.user_id r) (users db))) l.
Proof.
  induction l as [|r l IH]; [done|].
  rewrite filter_cons. csimpl. unfold candidate at 1. case_decide as Hs.
  - destruct Hs as [u Hu]. rewrite Hu. csimpl. by rewrite IH.
  - destruct (get (Request.user_id r) (users db)) as [u|] eqn:E;
      [exfalso; apply Hs; by exists u|].
    csimpl. exact IH.
Qed.

Lemma length_candidates (db : DB) (l : list Request.t) :
  length (omap (candidate db) l)
  = (length l
     - length (filter (fun r => get (Request.user_id r) (users db) = None) l))%nat.
Proof.
  pose proof (length_omap_filter (candidate db) l) as E.
  rewrite (list_filter_iff _ (fun r => get (Request.user_id r) (users db) = None)) in E
    by (intros r; apply candidate_None).
  lia.
Qed.

Lemma entries_count (env : Env) (db : DB) (d : LotteryCreate.t) (res : LotteryResult.t) :
  result (execute_lottery env db d) = Ok res →
  (length (LotteryResult.winners res) + length (LotteryResult.non_winners res))%nat
  = (length (accepted_requests db (LotteryCreate.period d))
     - length (filter (fun r => get (Request.user_id r) (users db) = None)
                      (accepted_requests db (LotteryCreate.period d))))%nat.
Proof.
  intros Hres.
  apply execute_lottery_Ok in Hres as (_ & _ & items & -> & _ & Hitems).
  pose proof (allocation_inv d items) as Hinv.
  apply (run_items env) in Hitems as [prev Hperm]. simpl.
  rewrite (run_count _ _ _ _ Hinv), Hperm, length_fmap.
  apply length_candidates.
Qed.

Lemma filter_unresolved_none (db : DB) (l : list Request.t) :
  Forall (fun r => is_Some (get (Request.user_id r) (users db))) l →
  filter (fun r => get (Request.user_id r) (users db) = None) l = [].
Proof.
  intros H. apply filter_none. eapply Forall_impl; [exact H|].
  intros r [u Hu] E. rewrite E in Hu. discriminate Hu.
Qed.

End Loading.

(** ** A condominium of 1001 residents *)

Section Crowd.
Import LotteryService BaseRepository.

Lemma crowd_accepted :
  filter (fun r => Request.lottery_period r = "2025-07" ∧ Request.status r = accepted)
         (requests Sample.july_crowd)
  = requests Sample.july_crowd.
Proof.
  apply filter_all. unfold Sample.july_crowd. cbn [requests].
  apply Forall_fmap, Forall_forall. by intros i _.
Qed.

Lemma crowd_ids :
  Forall (fun i => ObjectId (User.id (Sample.neighbour i))
                   = Some (User.id (Sample.neighbour i))) (seq 0 1001).
Proof. apply (bool_decide_unpack _). vm_compute. reflexivity. Qed.

Lemma crowd_resolves :
  Forall (fun r => is_Some (get (Request.user_id r) (users Sample.july_crowd)))
         (requests Sample.july_crowd).
Proof.
  unfold Sample.july_crowd. cbn [requests users].
  apply Forall_fmap, Forall_forall. intros i Hi.
  apply (get_stored (Sample.neighbour i)).
  - pose proof crowd_ids as Hids. rewrite Forall_forall in Hids. by apply Hids.
  - apply list_elem_of_fmap. by exists i.
Qed.

Lemma crowd_length : length (requests Sample.july_crowd) = 1001%nat.
Proof. unfold Sample.july_crowd. cbn [requests]. by rewrite length_fmap, length_seq. Qed.

Lemma crowd_loaded : length (accepted_requests Sample.july_crowd "2025-07") = 1000%nat.
Proof.
  rewrite accepted_requests_spec, crowd_accepted, length_take, crowd_length. done.
Qed.

Lemma crowd_runs :
  result (execute_lottery Sample.env Sample.july_crowd Sample.one_car)
  = Ok SampleTwice.crowd_result.
Proof.
  assert (LotteryCreate_valid Sample.one_car = true) as Hv by reflexivity.
  assert (find_one (by_period (LotteryCreate.period Sample.one_car))
            (lotteries Sample.july_crowd) = None) as Hf by reflexivity.
  assert (_get_previous_period_non_winners Sample.july_crowd
            (LotteryCreate.period Sample.one_car) = Ok []) as Hp by reflexivity.
  destruct (execute_lottery_runs Sample.env Sample.july_crowd Sample.one_car []
              Hv eq_refl eq_refl Hf Hp) as [res Hres].
  rewrite Hres. f_equal.
  apply execute_lottery_Ok in Hres as (_ & _ & items & -> & _ & Hitems).
  destruct Hitems as [[Hnone _]|[prev [Hprev ->]]].
  - pose proof crowd_loaded as Hl.
    change (LotteryCreate.period Sample.one_car) with "2025-07" in Hnone.
    rewrite Hnone in Hl. discriminate Hl.
  - rewrite Hp in Hprev. injection Hprev as <-.
    reflexivity.
Qed.

Lemma crowd_entries :
  (length (LotteryResult.winners SampleTwice.crowd_result)
   + length (LotteryResult.non_winners SampleTwice.crowd_result))%nat = 1000%nat.
Proof.
  rewrite (entries_count Sample.env Sample.july_crowd Sample.one_car _ crowd_runs).
  change (LotteryCreate.period Sample.one_car) with "2025-07".
  rewrite crowd_loaded.
  rewrite filter_unresolved_none; [reflexivity|].
  rewrite accepted_requests_spec, crowd_accepted. apply Forall_take.
  exact crowd_resolves.
Qed.

End Crowd.

Section ClaimsLoading.
Import LotteryService BaseRepository.

(** C6 (amended). A run loads the first 1000 accepted requests of the
    period, all of them when they are no more than 1000; every loaded
    request whose resident resolves gives one entry among the winners and
    non-winners, under its own request id, so the two lists together count
    the loaded requests less the loaded requests whose resident does not
    resolve. *)
Theorem entries_count_loaded_requests (env : Env) (db : DB) (d : LotteryCreate.t)
    (res : LotteryResult.t) :
  result (execute_lottery env db d) = Ok res →
  let for_period :=
    filter (fun r => Request.lottery_period r = LotteryCreate.period d
                     ∧ Request.status r = accepted) (requests db) in
  let loaded := accepted_requests db (LotteryCreate.period d) in
  let skipped :=
    filter (fun r => get (Request.user_id r) (users db) = None) loaded in
  loaded = take 1000 for_period
  ∧ ((length for_period ≤ 1000)%nat → loaded = for_period)
  ∧ (length (LotteryResult.winners res) + length (LotteryResult.non_winners res))%nat
    = (length loaded - length skipped)%nat
  ∧ LotteryParticipantResult.request_id
      <$> (LotteryResult.winners res ++ LotteryResult.non_winners res)
    ≡ₚ Request.id
         <$> filter (fun r => is_Some (get (Request.user_id r) (users db))) loaded.
Proof.
  intros Hres for_period loaded skipped.
  apply execute_lottery_Ok in Hres as (_ & _ & items & -> & _ & Hitems).
  pose proof (allocation_inv d items) as Hinv.
  apply (run_items env) in Hitems as [prev Hperm]. simpl.
  pose proof (accepted_requests_spec db (LotteryCreate.period d)) as Hl.
  split_and!.
  - exact Hl.
  - intros Hle. unfold loaded. rewrite Hl. by apply take_ge.
  - rewrite (run_count _ _ _ _ Hinv), Hperm, length_fmap.
    apply length_candidates.
  - rewrite (entries_requests _ _ _ _ Hinv), Hperm.
    rewrite <- resolved_requests, <- !list_fmap_compose. done.
Qed.

Lemma entries_count_loaded_requests_witness :
  result (execute_lottery Sample.env Sample.july Sample.one_car)
  = Ok SampleRuns.july_result
  ∧ accepted_requests Sample.july "2025-07" = [Sample.ana_car; Sample.luis_car]
  ∧ (length (LotteryResult.winners SampleRuns.july_result)
     + length (LotteryResult.non_winners SampleRuns.july_result))%nat = 2%nat.
Proof.
  split; [vm_compute; reflexivity|]. split; [vm_compute; reflexivity|].
  destruct (entries_count_loaded_requests Sample.env Sample.july Sample.one_car
              SampleRuns.july_result) as (_ & _ & H & _).
  - vm_compute. reflexivity.
  - etransitivity; [exact H|]. vm_compute. reflexivity.
Defined.

(** C6 (as stated, at the condominium of 1001 residents, each with one
    accepted car request for July): every resident resolves, so nothing is
    skipped, yet the winners and non-winners of the run together are 1000,
    not the 1001 accepted requests of the period. *)
Lemma crowd_is_cut_at_1000 :
  result (execute_lottery Sample.env Sample.july_crowd Sample.one_car)
  = Ok SampleTwice.crowd_result
  ∧ ¬ (let for_period :=
         filter (fun r => Request.lottery_period r = "2025-07"
                          ∧ Request.status r = accepted)
                (requests Sample.july_crowd) in
       let skipped :=
         filter (fun r => get (Request.user_id r) (users Sample.july_crowd) = None)
                for_period in
       (length (LotteryResult.winners SampleTwice.crowd_result)
        + length (LotteryResult.non_winners SampleTwice.crowd_result))%nat
       = (length for_period - length skipped)%nat).
Proof.
  split; [exact crowd_runs|]. intros H. cbv zeta in H.
  rewrite crowd_entries, crowd_accepted, crowd_length in H.
  rewrite (filter_unresolved_none _ _ crowd_resolves) in H.
  cbn [length] in H. lia.
Qed.

End ClaimsLoading.

(** * Further properties: reading stored results *)

Section Reads.
Import LotteryService BaseRepository LotteryResults.

Lemma find_one_first {A} (query : A → bool) (l1 l2 : list A) (d : A) :
  Forall (fun x => query x = false) l1 → query d = true →
  find_one query (l1 ++ d :: l2) = Some d.
Proof.
  intros H1 Hd. unfold find_one. rewrite filter_app, filter_cons.
  rewrite decide_True by done. rewrite filter_none; [done|].
  eapply Forall_impl; [exact H1|]. intros x Hx. simpl. congruence.
Qed.

Lemma find_one_split {A} (query : A → bool) (collection : list A) (d : A) :
  find_one query collection = Some d →
  ∃ l1 l2, collection = l1 ++ d :: l2
           ∧ Forall (fun x => query x = false) l1 ∧ query d = true.
Proof.
  unfold find_one. induction collection as [|x l IH]; [done|].
  rewrite filter_cons. destruct (query x) eqn:Q.
  - rewrite decide_True by done. simpl. intros [= ->]. by exists [], l.
  - rewrite decide_False by done. intros (l1 & l2 & -> & H1 & Hd)%IH.
    exists (x :: l1), l2. split_and!; [done| |done]. by constructor.
Qed.

(** The document a successful run stores is the one found for its period
    afterwards. *)
Lemma run_stored (env : Env) (db : DB) (d : LotteryCreate.t) (res : LotteryResult.t) :
  result (execute_lottery env db d) = Ok res →
  LotteryResult.period res = LotteryCreate.period d
  ∧ lotteries (store (execute_lottery env db d)) = lotteries db ++ [res]
  ∧ find_one (by_period (LotteryCreate.period d))
      (lotteries (store (execute_lottery env db d))) = Some res.
Proof.
  intros Hres.
  apply execute_lottery_Ok in Hres as (_ & Hnone & items & -> & -> & _).
  cbn [lotteries]. split_and!; [done..|].
  apply find_one_first.
  - apply Forall_forall. intros l Hl. rewrite find_one_None in Hnone. by apply Hnone.
  - by apply bool_decide_eq_true.
Qed.

(** The loop of [get_my_assignment] keeps the winners of the user, in
    order. *)
Lemma collect_spec (user_id lottery_period : string)
    (ws : list LotteryParticipantResult.t) (acc : list MyAssignmentOut.t) :
  foldl (collect user_id lottery_period) acc ws
  = acc ++ ((fun w => MyAssignmentOut.mk lottery_period
                        (LotteryParticipantResult.vehicle_type w)
                        (LotteryParticipantResult.license_plate w)
                        (LotteryParticipantResult.spot w))
              <$> filter (fun w => LotteryParticipantResult.user_id w = user_id) ws).
Proof.
  revert acc. induction ws as [|w ws IH]; intros acc; simpl.
  - by rewrite app_nil_r.
  - rewrite IH, filter_cons. unfold collect. case_bool_decide.
    + rewrite decide_True by done. by rewrite fmap_cons, <- (assoc_L app).
    + by rewrite decide_False by done.
Qed.

Lemma VehicleType_NoDup_length (l : list VehicleType) : NoDup l → (length l ≤ 2)%nat.
Proof.
  intros Hnd. destruct l as [|a [|b [|c l]]]; simpl; try lia.
  exfalso. apply NoDup_cons in Hnd as [Ha Hnd]. apply NoDup_cons in Hnd as [Hb _].
  apply not_elem_of_cons in Ha as [Hab Ha]. apply not_elem_of_cons in Ha as [Hac _].
  apply not_elem_of_cons in Hb as [Hbc _].
  destruct a, b, c; congruence.
Qed.

(** X1. After a successful run, the result read back for the period of the
    run, with no vehicle filter, is the result the run returned. *)
Theorem run_result_is_read_back (env : Env) (db : DB) (d : LotteryCreate.t)
    (res : LotteryResult.t) :
  result (execute_lottery env db d) = Ok res →
  get_lottery_result (store (execute_lottery env db d)) (LotteryCreate.period d) None
  = Return res.
Proof.
  intros Hres. unfold get_lottery_result.
  by destruct (run_stored env db d res Hres) as (_ & _ & ->).
Qed.

Lemma run_result_is_read_back_witness :
  result (execute_lottery Sample.env Sample.july Sample.one_car)
  = Ok SampleRuns.july_result
  ∧ get_lottery_result Sample.july_resolved "2025-07" None
    = Return SampleRuns.july_result.
Proof.
  split; [vm_compute; reflexivity|].
  apply (run_result_is_read_back Sample.env Sample.july Sample.one_car).
  vm_compute. reflexivity.
Defined.

(** X2. A period for which nothing is stored: the administrator's lookup
    raises 404 whatever the filter, and it raises 404 only then; the
    resident's lookup gives the empty list, not an error. *)
Theorem unknown_period_reads (db : DB) (lottery_period : string)
    (vehicle_type : option VehicleType) (user_id : string) :
  ((∀ l, l ∈ lotteries db → LotteryResult.period l ≠ lottery_period)
   ↔ get_lottery_result db lottery_period vehicle_type
     = RaiseHTTP (HTTP_404_NOT_FOUND
         "Resultado de sorteo no encontrado para el período especificado."))
  ∧ ((∀ l, l ∈ lotteries db → LotteryResult.period l ≠ lottery_period) →
     get_my_assignment db user_id lottery_period = [])
  ∧ ∀ e, get_lottery_result db lottery_period vehicle_type = RaiseHTTP e →
         ∀ l, l ∈ lotteries db → LotteryResult.period l ≠ lottery_period.
Proof.
  assert ((∀ l, l ∈ lotteries db → LotteryResult.period l ≠ lottery_period)
          ↔ find_one (by_period lottery_period) (lotteries db) = None) as Hn.
  { rewrite find_one_None. split; intros H l Hl; specialize (H l Hl).
    - by apply bool_decide_eq_false.
    - by apply bool_decide_eq_false in H. }
  unfold get_lottery_result, get_my_assignment. split_and!.
  - rewrite Hn. destruct (find_one _ _) as [l|]; [|done].
    split; [done|]. by destruct vehicle_type.
  - rewrite Hn. by intros ->.
  - intros e He. apply Hn. destruct (find_one _ _) as [l|]; [|done].
    by destruct vehicle_type.
Qed.

(** X3. The vehicle filter of the administrator's lookup touches the
    winners only: the two filtered views return the same document with
    the winners of that vehicle type, in stored order, and between them
    they hold every winner of the unfiltered view exactly once; the
    non-winners are the same in all three. *)
Theorem filtered_views_split_winners (db : DB) (lottery_period : string)
    (l : LotteryResult.t) :
  get_lottery_result db lottery_period None = Return l →
  ∃ cars motos,
    get_lottery_result db lottery_period (Some automovil) = Return cars
    ∧ get_lottery_result db lottery_period (Some motocicleta) = Return motos
    ∧ LotteryResult.winners cars = of_category automovil (LotteryResult.winners l)
    ∧ LotteryResult.winners motos = of_category motocicleta (LotteryResult.winners l)
    ∧ LotteryResult.winners l
      ≡ₚ LotteryResult.winners cars ++ LotteryResult.winners motos
    ∧ LotteryResult.non_winners cars = LotteryResult.non_winners l
    ∧ LotteryResult.non_winners motos = LotteryResult.non_winners l
    ∧ LotteryResult.id cars = LotteryResult.id l
    ∧ LotteryResult.id motos = LotteryResult.id l.
Proof.
  unfold get_lottery_result.
  destruct (find_one _ _) as [l'|]; [|done]. intros [= ->].
  eexists _, _. split_and!; try reflexivity.
  simpl. apply of_category_split.
Qed.

Lemma filtered_views_split_winners_witness :
  get_lottery_result Sample.july_resolved "2025-07" None
  = Return SampleRuns.july_result
  ∧ ∃ cars motos,
      get_lottery_result Sample.july_resolved "2025-07" (Some automovil) = Return cars
      ∧ get_lottery_result Sample.july_resolved "2025-07" (Some motocicleta)
        = Return motos
      ∧ LotteryResult.winners SampleRuns.july_result
        ≡ₚ LotteryResult.winners cars ++ LotteryResult.winners motos.
Proof.
  split; [vm_compute; reflexivity|].
  destruct (filtered_views_split_winners Sample.july_resolved "2025-07"
              SampleRuns.july_result) as (cars & motos & H1 & H2 & _ & _ & H3 & _).
  - vm_compute. reflexivity.
  - exists cars, motos. by split_and!.
Defined.

End Reads.

Section Assignments.
Import LotteryService BaseRepository LotteryResults Router.

Lemma own_vehicles_NoDup (user_id : string) (ws : list LotteryParticipantResult.t) :
  NoDup (entry_pair <$> ws) →
  NoDup (LotteryParticipantResult.vehicle_type
           <$> filter (fun w => LotteryParticipantResult.user_id w = user_id) ws).
Proof.
  induction ws as [|w ws IH]; [constructor|].
  rewrite fmap_cons, NoDup_cons. intros [Hw Hnd]. rewrite filter_cons.
  case_decide as Hu; [|by apply IH].
  rewrite fmap_cons. apply NoDup_cons. split; [|by apply IH].
  intros (w' & Ev & [Hu' Hin]%list_elem_of_filter)%list_elem_of_fmap.
  apply Hw, list_elem_of_fmap. exists w'. split; [|done].
  unfold entry_pair. by rewrite Ev, Hu, Hu'.
Qed.

Lemma my_assignment_spec (db : DB) (user_id lottery_period : string)
    (l : LotteryResult.t) :
  find_one (by_period lottery_period) (lotteries db) = Some l →
  get_my_assignment db user_id lottery_period
  = (fun w => MyAssignmentOut.mk lottery_period
                (LotteryParticipantResult.vehicle_type w)
                (LotteryParticipantResult.license_plate w)
                (LotteryParticipantResult.spot w))
      <$> filter (fun w => LotteryParticipantResult.user_id w = user_id)
                 (LotteryResult.winners l).
Proof. unfold get_my_assignment. intros ->. by rewrite collect_spec. Qed.

(** X4. After a successful run, what a resident is told for the period of
    the run: at most one assignment per vehicle type, so at most two; each
    names the period and a spot; and the list is empty exactly when the
    resident is not among the winners of the run. *)
Theorem my_assignments_after_run (env : Env) (db : DB) (d : LotteryCreate.t)
    (res : LotteryResult.t) (user_id : string) :
  result (execute_lottery env db d) = Ok res →
  let mine := get_my_assignment (store (execute_lottery env db d)) user_id
                (LotteryCreate.period d) in
  NoDup (MyAssignmentOut.vehicle_type <$> mine)
  ∧ (length mine ≤ 2)%nat
  ∧ Forall (fun a => MyAssignmentOut.period a = LotteryCreate.period d
                     ∧ ∃ s, MyAssignmentOut.spot a = Some s) mine
  ∧ (mine = []
     ↔ user_id ∉ LotteryParticipantResult.user_id <$> LotteryResult.winners res).
Proof.
  intros Hres mine.
  destruct (run_stored env db d res Hres) as (_ & _ & Hfind).
  pose proof (my_assignment_spec _ user_id _ _ Hfind) as Hmine. fold mine in Hmine.
  apply execute_lottery_Ok in Hres as (_ & _ & items & -> & _ & _).
  pose proof (allocation_inv d items) as Hinv. simpl in Hmine. simpl.
  assert (NoDup (MyAssignmentOut.vehicle_type <$> mine)) as Hnd.
  { rewrite Hmine, <- list_fmap_compose.
    apply (own_vehicles_NoDup user_id). by eapply winner_pairs_NoDup. }
  split_and!.
  - done.
  - rewrite <- (length_fmap MyAssignmentOut.vehicle_type).
    by apply VehicleType_NoDup_length.
  - rewrite Hmine. apply Forall_fmap, Forall_forall.
    intros w [_ Hw]%list_elem_of_filter. simpl. split; [done|].
    pose proof (inv_winners _ _ _ _ Hinv) as Ht. rewrite Forall_forall in Ht.
    specialize (Ht w Hw). destruct (LotteryParticipantResult.spot w); [eauto|done].
  - rewrite Hmine. split.
    + intros E%fmap_nil_inv (w & Eu & Hw)%list_elem_of_fmap.
      assert (w ∈ filter (fun w => LotteryParticipantResult.user_id w = user_id)
                         (winners (allocation d items))) as Hin
        by (by apply list_elem_of_filter).
      rewrite E in Hin. by apply elem_of_nil in Hin.
    + intros Hno. rewrite filter_none; [done|].
      apply Forall_forall. intros w Hw Eu. apply Hno, list_elem_of_fmap. by exists w.
Qed.

Lemma my_assignments_after_run_witness :
  result (execute_lottery Sample.env Sample.july Sample.one_car)
  = Ok SampleRuns.july_result
  ∧ get_my_assignment Sample.july_resolved (User.id Sample.luis) "2025-07"
    = [MyAssignmentOut.mk "2025-07" automovil "XYZ789" (Some "C-01")]
  ∧ (length (get_my_assignment Sample.july_resolved (User.id Sample.luis) "2025-07")
     ≤ 2)%nat.
Proof.
  split; [vm_compute; reflexivity|]. split; [vm_compute; reflexivity|].
  destruct (my_assignments_after_run Sample.env Sample.july Sample.one_car
              SampleRuns.july_result (User.id Sample.luis)) as (_ & H & _).
  - vm_compute. reflexivity.
  - exact H.
Defined.

(** X5. The resident's endpoint answers 400 exactly when the session user
    has no id; otherwise it lists, for the first result stored for the
    period, the winner entries whose resident is the caller and nothing
    else. *)
Theorem endpoint_lists_own_winnings (db : DB) (lottery_period : string)
    (current_user : User.t) :
  (User.id current_user = ""
   ↔ get_my_lottery_assignment db lottery_period current_user
     = RaiseHTTP (HTTP_400_BAD_REQUEST "ID de usuario no disponible."))
  ∧ ∀ mine,
      get_my_lottery_assignment db lottery_period current_user = Return mine →
      ∀ a, a ∈ mine
           ↔ ∃ l w,
               find_one (by_period lottery_period) (lotteries db) = Some l
               ∧ w ∈ LotteryResult.winners l
               ∧ LotteryParticipantResult.user_id w = User.id current_user
               ∧ a = MyAssignmentOut.mk lottery_period
                       (LotteryParticipantResult.vehicle_type w)
                       (LotteryParticipantResult.license_plate w)
                       (LotteryParticipantResult.spot w).
Proof.
  unfold get_my_lottery_assignment. split.
  - by destruct (User.id current_user).
  - intros mine Hm a.
    assert (mine = get_my_assignment db (User.id current_user) lottery_period) as ->.
    { destruct (User.id current_user); [done|]. by injection Hm as <-. }
    clear Hm.
    destruct (find_one (by_period lottery_period) (lotteries db)) as [l|] eqn:E.
    + rewrite (my_assignment_spec _ _ _ _ E), list_elem_of_fmap. split.
      * intros (w & -> & [Hu Hw]%list_elem_of_filter). by exists l, w.
      * intros (l' & w & [= <-] & Hw & Hu & ->). exists w. split; [done|].
        by apply list_elem_of_filter.
    + unfold get_my_assignment. rewrite E. split.
      * by intros ?%elem_of_nil.
      * by intros (l & w & ? & _).
Qed.

End Assignments.

(** * Further properties: removing stored results *)

Section Removal.
Import LotteryService BaseRepository BaseRepositoryMore LotteryResults.

Section Documents.
Context {A : Type} `{Model A}.

Lemma delete_one_Some (obj_id : string) (collection rest : list A) :
  delete_one obj_id collection = Some rest →
  ∃ l1 d l2, collection = l1 ++ d :: l2
             ∧ Forall (fun x => model_id x ≠ Some obj_id) l1
             ∧ model_id d = Some obj_id ∧ rest = l1 ++ l2.
Proof.
  revert rest. induction collection as [|x l IH]; intros rest; simpl; [done|].
  case_bool_decide as Hx.
  - intros [= <-]. by exists [], x, l.
  - destruct (delete_one obj_id l) as [rest'|]; [|done]. simpl. intros [= <-].
    destruct (IH rest' eq_refl) as (l1 & d & l2 & -> & H1 & Hd & ->).
    exists (x :: l1), d, l2. split_and!; [done| |done..]. by constructor.
Qed.

Lemma delete_one_first (obj_id : string) (l1 l2 : list A) (d : A) :
  Forall (fun x => model_id x ≠ Some obj_id) l1 → model_id d = Some obj_id →
  delete_one obj_id (l1 ++ d :: l2) = Some (l1 ++ l2).
Proof.
  intros H1 Hd. induction H1 as [|x l1 Hx _ IH]; simpl.
  - by rewrite bool_decide_eq_true_2.
  - by rewrite bool_decide_eq_false_2, IH.
Qed.

Lemma delete_one_None (obj_id : string) (collection : list A) :
  delete_one obj_id collection = None
  ↔ Forall (fun x => model_id x ≠ Some obj_id) collection.
Proof.
  induction collection as [|x l IH]; simpl; [done|].
  rewrite Forall_cons. case_bool_decide as Hx.
  - split; [done|]. by intros [? _].
  - rewrite <- IH. destruct (delete_one obj_id l); simpl; split; try done.
    by intros [_ ?].
Qed.

Lemma get_None (item_id obj_id : string) (collection : list A) :
  ObjectId item_id = Some obj_id →
  get item_id collection = None
  ↔ Forall (fun x => model_id x ≠ Some obj_id) collection.
Proof.
  intros Hid. unfold get. rewrite Hid, head_None. split.
  - intros E. apply Forall_forall. intros x Hx Hx'.
    assert (x ∈ filter (fun d => model_id d = Some obj_id) collection) as Hin
      by (by apply list_elem_of_filter).
    rewrite E in Hin. by apply elem_of_nil in Hin.
  - intros Hall. by apply filter_none.
Qed.

Lemma get_first (item_id obj_id : string) (l1 l2 : list A) (d : A) :
  ObjectId item_id = Some obj_id →
  Forall (fun x => model_id x ≠ Some obj_id) l1 → model_id d = Some obj_id →
  get item_id (l1 ++ d :: l2) = Some d.
Proof.
  intros Hid H1 Hd. unfold get. rewrite Hid, filter_app, filter_cons.
  rewrite decide_True by done. by rewrite filter_none.
Qed.

Lemma get_split (item_id obj_id : string) (collection : list A) (d : A) :
  ObjectId item_id = Some obj_id →
  get item_id collection = Some d →
  ∃ l1 l2, collection = l1 ++ d :: l2
           ∧ Forall (fun x => model_id x ≠ Some obj_id) l1
           ∧ model_id d = Some obj_id.
Proof.
  intros Hid. unfold get. rewrite Hid.
  induction collection as [|x l IH]; [done|].
  rewrite filter_cons. case_decide as Hx.
  - simpl. intros [= ->]. by exists [], l.
  - intros (l1 & l2 & -> & H1 & Hd)%IH.
    exists (x :: l1), l2. split_and!; [done| |done]. by constructor.
Qed.

(** Two spellings of one [ObjectId] read the same. *)
Lemma get_spelling (item_id other obj_id : string) (collection : list A) :
  ObjectId item_id = Some obj_id → ObjectId other = Some obj_id →
  get other collection = get item_id collection.
Proof. intros H1 H2. unfold get. by rewrite H1, H2. Qed.

(** X6. [delete] on a collection: an id that is no ObjectId, or under
    which nothing is stored, deletes nothing and answers false; otherwise
    it answers true and removes exactly the document [get] returns for
    that id, the first one stored under it, leaving the others in order. *)
Theorem delete_removes_what_get_returns (item_id : string) (collection : list A) :
  (ObjectId item_id = None → delete item_id collection = (false, collection))
  ∧ ∀ obj_id, ObjectId item_id = Some obj_id →
      (get obj_id collection = None → delete item_id collection = (false, collection))
      ∧ ∀ d, get obj_id collection = Some d →
          ∃ l1 l2, collection = l1 ++ d :: l2
                   ∧ Forall (fun x => model_id x ≠ Some obj_id) l1
                   ∧ delete item_id collection = (true, l1 ++ l2).
Proof.
  unfold delete. split; [by intros ->|]. intros obj_id Hid.
  pose proof (ObjectId_idem _ _ Hid) as Hobj. rewrite Hid. split.
  - intros Hn. apply (get_None _ _ _ Hobj), delete_one_None in Hn. by rewrite Hn.
  - intros d (l1 & l2 & -> & H1 & Hd)%(get_split _ _ _ _ Hobj). exists l1, l2.
    split_and!; [done..|]. by rewrite delete_one_first.
Qed.

(** X7. When no two documents share an id, an id that was deleted is gone
    in every spelling of it, and every string that is not a spelling of it
    reads as before. *)
Theorem deleted_document_is_gone (item_id obj_id : string)
    (collection rest : list A) :
  ObjectId item_id = Some obj_id →
  NoDup (model_id <$> collection) →
  delete item_id collection = (true, rest) →
  (∀ same, ObjectId same = Some obj_id → get same rest = None)
  ∧ ∀ other, ObjectId other ≠ Some obj_id → get other rest = get other collection.
Proof.
  unfold delete. intros Hid Hnd Hdel. rewrite Hid in Hdel.
  destruct (delete_one obj_id collection) as [rest'|] eqn:E; [|done].
  injection Hdel as <-.
  apply delete_one_Some in E as (l1 & d & l2 & -> & H1 & Hd & ->).
  rewrite fmap_app, fmap_cons in Hnd.
  apply NoDup_app in Hnd as (_ & Hdis & [Hd2 _]%NoDup_cons). split.
  - intros same Hsame. apply (get_None _ _ _ Hsame), Forall_app. split; [done|].
    apply Forall_forall. intros x Hx Hx'. apply Hd2, list_elem_of_fmap.
    exists x. split; [congruence|done].
  - intros other Hne. unfold get.
    destruct (ObjectId other) as [o|]; [|done].
    rewrite !filter_app, filter_cons.
    rewrite decide_False; [done|]. congruence.
Qed.

End Documents.

Lemma deleted_document_is_gone_witness :
  ObjectId "6680A1B2C3D4E5F601234567" = Some "6680a1b2c3d4e5f601234567"
  ∧ delete "6680A1B2C3D4E5F601234567" (lotteries Sample.july_resolved) = (true, [])
  ∧ get "6680a1b2c3d4e5f601234567" ([] : list LotteryResult.t) = None.
Proof.
  split; [vm_compute; reflexivity|]. split; [vm_compute; reflexivity|].
  destruct (deleted_document_is_gone "6680A1B2C3D4E5F601234567"
              "6680a1b2c3d4e5f601234567" (lotteries Sample.july_resolved) [])
    as [H _].
  - vm_compute. reflexivity.
  - vm_compute. apply (bool_decide_unpack _). vm_compute. reflexivity.
  - vm_compute. reflexivity.
  - apply H. vm_compute. reflexivity.
Defined.

End Removal.

Section RemovingResults.
Import LotteryService BaseRepository BaseRepositoryMore LotteryResults.

Lemma by_period_false (p : string) (l1 : list LotteryResult.t) :
  Forall (fun x => by_period p x = false) l1
  ↔ Forall (fun x => LotteryResult.period x ≠ p) l1.
Proof.
  apply Forall_proper; [|done]. intros x. unfold by_period.
  by rewrite bool_decide_eq_false.
Qed.

(** X8. Deleting the result of a period for which nothing is stored raises
    404 and leaves the database as it was; and 404 is raised in no other
    case. *)
Theorem delete_of_unknown_period (db : DB) (lottery_period : string) :
  ((∀ l, l ∈ lotteries db → LotteryResult.period l ≠ lottery_period) →
   delete_lottery_result db lottery_period
   = {| response := RaiseHTTP (HTTP_404_NOT_FOUND
          "Sorteo no encontrado para el período especificado.");
        remaining := db |})
  ∧ ∀ detail,
      response (delete_lottery_result db lottery_period)
      = RaiseHTTP (HTTP_404_NOT_FOUND detail) →
      ∀ l, l ∈ lotteries db → LotteryResult.period l ≠ lottery_period.
Proof.
  unfold delete_lottery_result. split.
  - intros Hno.
    assert (find_one (by_period lottery_period) (lotteries db) = None) as ->; [|done].
    apply find_one_None. intros l Hl. apply bool_decide_eq_false. by apply Hno.
  - intros detail.
    destruct (find_one (by_period lottery_period) (lotteries db)) as [l0|] eqn:E.
    + destruct (delete _ _) as [[|] rest]; simpl; discriminate.
    + intros _ l Hl. rewrite find_one_None in E. specialize (E l Hl).
      by apply bool_decide_eq_false in E.
Qed.

(** X9. On a collection whose documents carry pairwise distinct ObjectIds,
    deleting the result of a period that has one succeeds, never with the
    500 answer: exactly the first document of that period leaves the
    collection, the other documents keep their order, and requests and
    users are untouched. *)
Theorem delete_removes_first_of_period (db : DB) (lottery_period : string)
    (l : LotteryResult.t) :
  Forall (fun x => ∃ i, LotteryResult.id x = Some i ∧ ObjectId i = Some i)
         (lotteries db) →
  NoDup (LotteryResult.id <$> lotteries db) →
  l ∈ lotteries db →
  LotteryResult.period l = lottery_period →
  ∃ l1 first l2,
    lotteries db = l1 ++ first :: l2
    ∧ Forall (fun x => LotteryResult.period x ≠ lottery_period) l1
    ∧ LotteryResult.period first = lottery_period
    ∧ delete_lottery_result db lottery_period
      = {| response := Return "Sorteo eliminado exitosamente.";
           remaining := {| lotteries := l1 ++ l2;
                           requests := requests db; users := users db |} |}.
Proof.
  intros Hids Hnd Hl Hp. unfold delete_lottery_result.
  destruct (find_one (by_period lottery_period) (lotteries db)) as [first|] eqn:E.
  2:{ rewrite find_one_None in E. specialize (E l Hl).
      by apply bool_decide_eq_false in E. }
  apply find_one_split in E as (l1 & l2 & Hsplit & H1 & Hfirst).
  apply by_period_false in H1. apply bool_decide_eq_true in Hfirst.
  exists l1, first, l2. split_and!; [done..|].
  rewrite Hsplit in Hids, Hnd |- *.
  apply Forall_app in Hids as [_ [(i & Hi & Hoid) _]%Forall_cons].
  rewrite fmap_app, fmap_cons in Hnd.
  apply NoDup_app in Hnd as (_ & Hdis & _).
  unfold delete. rewrite Hi. simpl. rewrite Hoid.
  rewrite delete_one_first; [done| |done].
  apply Forall_forall. intros x Hx Hid. apply (Hdis (Some i)).
  - apply list_elem_of_fmap. by exists x.
  - rewrite <- Hi. apply list_elem_of_here.
Qed.

Lemma delete_removes_first_of_period_witness :
  SampleRuns.july_result ∈ lotteries Sample.july_resolved
  ∧ ∃ l1 first l2,
      lotteries Sample.july_resolved = l1 ++ first :: l2
      ∧ delete_lottery_result Sample.july_resolved "2025-07"
        = {| response := Return "Sorteo eliminado exitosamente.";
             remaining := {| lotteries := l1 ++ l2;
                             requests := requests Sample.july_resolved;
                             users := users Sample.july_resolved |} |}.
Proof.
  split; [vm_compute; apply list_elem_of_here|].
  destruct (delete_removes_first_of_period Sample.july_resolved "2025-07"
              SampleRuns.july_result) as (l1 & first & l2 & H1 & _ & _ & H2).
  - vm_compute. repeat constructor. eexists. split; reflexivity.
  - vm_compute. apply (bool_decide_unpack _). vm_compute. reflexivity.
  - vm_compute. apply list_elem_of_here.
  - reflexivity.
  - by exists l1, first, l2.
Defined.

(** X10. Deleting the result of a period right after the run that stored
    it gives back the database the run started from, when the id the run
    was given is an ObjectId that no stored result carries. *)
Theorem delete_undoes_run (env : Env) (db : DB) (d : LotteryCreate.t)
    (res : LotteryResult.t) :
  result (execute_lottery env db d) = Ok res →
  ObjectId (new_oid env) = Some (new_oid env) →
  (∀ l, l ∈ lotteries db → LotteryResult.id l ≠ Some (new_oid env)) →
  delete_lottery_result (store (execute_lottery env db d)) (LotteryCreate.period d)
  = {| response := Return "Sorteo eliminado exitosamente."; remaining := db |}.
Proof.
  intros Hres Hoid Hfresh.
  destruct (run_stored env db d res Hres) as (_ & Hstore & Hfind).
  unfold delete_lottery_result. rewrite Hfind, Hstore.
  apply execute_lottery_Ok in Hres as (_ & _ & items & -> & -> & _).
  unfold delete. simpl. rewrite Hoid.
  rewrite delete_one_first; [by rewrite app_nil_r; destruct db| |done].
  apply Forall_forall. intros l Hl. by apply Hfresh.
Qed.

Lemma delete_undoes_run_witness :
  result (execute_lottery Sample.env Sample.july Sample.one_car)
  = Ok SampleRuns.july_result
  ∧ delete_lottery_result Sample.july_resolved "2025-07"
    = {| response := Return "Sorteo eliminado exitosamente.";
         remaining := Sample.july |}.
Proof.
  split; [vm_compute; reflexivity|].
  apply (delete_undoes_run Sample.env Sample.july Sample.one_car
           SampleRuns.july_result).
  - vm_compute. reflexivity.
  - vm_compute. reflexivity.
  - intros l Hl. vm_compute in Hl. by apply elem_of_nil in Hl.
Defined.

End RemovingResults.

(** * Further properties: when a run succeeds and what a failed run leaves *)

Section Outcomes.
Import LotteryService BaseRepository.

Lemma uint_of_char_digit (c : ascii) (d : uint) :
  is_digit c = true → is_Some (DecimalString.uint_of_char c (Some d)).
Proof.
  destruct c as [[|] [|] [|] [|] [|] [|] [|] [|]]; intros Hc;
    try discriminate Hc; by eexists.
Qed.

Lemma uint_of_string_digits (s : string) :
  all_digits s = true → is_Some (NilEmpty.uint_of_string s).
Proof.
  induction s as [|c s IH]; simpl; [by eexists|].
  intros [Hc Hs]%andb_prop. destruct (IH Hs) as [d ->].
  by apply uint_of_char_digit.
Qed.

Lemma int_digits (s : string) :
  all_digits s = true → s ≠ "" → is_Some (Py.int s).
Proof.
  intros Hs Hne. destruct (uint_of_string_digits s Hs) as [d Hd].
  unfold Py.int. destruct s; [done|]. rewrite Hd. by eexists.
Qed.

(** A period of ASCII digits splits into two numbers. *)
Lemma previous_period_total (s : string) :
  period_pattern s = true → ∃ p, previous_period s = Ok p.
Proof.
  intros Hs. unfold period_pattern in Hs.
  destruct s as [|y1 [|y2 [|y3 [|y4 [|dash [|m1 [|m2 [|? ?]]]]]]]]; try discriminate Hs.
  apply andb_prop in Hs as [Hs Hm2]. apply andb_prop in Hs as [Hs Hm1].
  apply andb_prop in Hs as [Hs Hd]. apply andb_prop in Hs as [Hs H4].
  apply andb_prop in Hs as [Hs H3]. apply andb_prop in Hs as [H1 H2].
  apply Ascii.eqb_eq in Hd as ->.
  assert (all_digits (String y1 (String y2 (String y3 (String y4 "")))) = true) as Hy.
  { simpl. by rewrite H1, H2, H3, H4. }
  assert (all_digits (String m1 (String m2 "")) = true) as Hm.
  { simpl. by rewrite Hm1, Hm2. }
  unfold previous_period.
  change (String y1 (String y2 (String y3 (String y4 (String "-" (String m1 (String m2 "")))))))
    with (String y1 (String y2 (String y3 (String y4 "")))
            +:+ String "-" (String m1 (String m2 ""))).
  rewrite (split_digits_dash _ _ Hy), (split_digits _ Hm).
  destruct (int_digits _ Hy) as [year ->]; [done|].
  destruct (int_digits _ Hm) as [month ->]; [done|].
  destruct (month =? 1); eauto.
Qed.

Lemma previous_non_winners_total (db : DB) (s : string) :
  period_pattern s = true → ∃ prev, _get_previous_period_non_winners db s = Ok prev.
Proof.
  intros [p Hp]%previous_period_total. unfold _get_previous_period_non_winners.
  rewrite Hp. destruct (find_one _ _) as [l|]; [|eauto].
  destruct (LotteryResult.non_winners l); eauto.
Qed.

(** X11. With input that passes the schema, its period written in ASCII
    digits: the run succeeds exactly when the two totals fit 8 bytes and no
    result is stored for the period; and when the totals fit, the only
    failure is the 409 conflict, which names a stored result of the
    period. *)
Theorem run_succeeds_iff (env : Env) (db : DB) (d : LotteryCreate.t) :
  LotteryCreate_valid d = true →
  let fit :=
    LotteryCreate.num_car_spots d ≤ 9223372036854775807
    ∧ LotteryCreate.num_moto_spots d ≤ 9223372036854775807 in
  ((∃ res, result (execute_lottery env db d) = Ok res)
   ↔ fit ∧ ∀ l, l ∈ lotteries db → LotteryResult.period l ≠ LotteryCreate.period d)
  ∧ (fit →
     ∀ e, result (execute_lottery env db d) = Raise e →
          ∃ existing,
            existing ∈ lotteries db
            ∧ LotteryResult.period existing = LotteryCreate.period d
            ∧ e = HTTP_409_CONFLICT (LotteryCreate.period d)
                    (LotteryResult.id existing)).
Proof.
  intros Hv fit.
  assert (fit →
          find_one (by_period (LotteryCreate.period d)) (lotteries db) = None →
          ∃ res, result (execute_lottery env db d) = Ok res) as Hruns.
  { intros [Fc Fm] Hnone.
    assert (period_pattern (LotteryCreate.period d) = true
            ∧ 0 ≤ LotteryCreate.num_car_spots d
            ∧ 0 ≤ LotteryCreate.num_moto_spots d) as (Hp & Hc & Hm).
    { unfold LotteryCreate_valid in Hv.
      by apply andb_prop in Hv as [[? ?%Z.leb_le]%andb_prop ?%Z.leb_le]. }
    destruct (previous_non_winners_total db _ Hp) as [prev Hprev].
    apply (execute_lottery_runs env db d prev); [done| | |done..];
      unfold int64; apply andb_true_intro; split; apply Z.leb_le; lia. }
  split.
  - split.
    + intros [res Hres].
      apply execute_lottery_fits in Hres as Hfit.
      apply execute_lottery_Ok in Hres as (_ & Hnone & _).
      destruct Hfit as [[_ Fc%Z.leb_le]%andb_prop [_ Fm%Z.leb_le]%andb_prop].
      split; [done|].
      intros l Hl. rewrite find_one_None in Hnone. specialize (Hnone l Hl).
      by apply bool_decide_eq_false in Hnone.
    + intros [Hfit Hno]. apply Hruns; [done|].
      apply find_one_None. intros l Hl. apply bool_decide_eq_false. by apply Hno.
  - intros Hfit e He.
    destruct (find_one (by_period (LotteryCreate.period d)) (lotteries db))
      as [existing|] eqn:E.
    + exists existing. apply find_one_Some in E as E'. destruct E' as [Hin Hq].
      apply bool_decide_eq_true in Hq. split_and!; [done..|].
      unfold execute_lottery in He. rewrite E in He. simpl in He. congruence.
    + destruct (Hruns Hfit eq_refl) as [res Hres]. congruence.
Qed.

Lemma run_succeeds_iff_witness :
  (∃ res, result (execute_lottery Sample.env Sample.july Sample.one_car) = Ok res)
  ∧ ∀ e, result (execute_lottery Sample.env Sample.july_resolved Sample.one_car)
         = Raise e →
         ∃ existing,
           existing ∈ lotteries Sample.july_resolved
           ∧ LotteryResult.period existing = "2025-07"
           ∧ e = HTTP_409_CONFLICT "2025-07" (LotteryResult.id existing).
Proof.
  split.
  - apply (run_succeeds_iff Sample.env Sample.july Sample.one_car); [reflexivity|].
    split; [split; vm_compute; discriminate|].
    intros l Hl. vm_compute in Hl. by apply elem_of_nil in Hl.
  - apply (run_succeeds_iff Sample.env Sample.july_resolved Sample.one_car);
      [reflexivity|].
    split; vm_compute; discriminate.
Defined.

(** X12. A run that raises, whatever it raises, stores nothing and sends
    nothing. *)
Theorem failed_run_leaves_no_trace (env : Env) (db : DB) (d : LotteryCreate.t)
    (e : Error) :
  result (execute_lottery env db d) = Raise e →
  store (execute_lottery env db d) = db ∧ outbox (execute_lottery env db d) = [].
Proof.
  unfold execute_lottery.
  destruct (find_one _ (lotteries db)) as [existing|]; [done|].
  destruct (accepted_requests db _) as [|r reqs].
  - destruct (LotteryResult_new _ _ _ _ _ _); [|done].
    by destruct (create _ _ _) as [[? ?]|].
  - destruct (_get_previous_period_non_winners db _) as [prev|]; [|done].
    destruct (LotteryResult_new _ _ _ _ _ _); [|done].
    by destruct (create _ _ _) as [[? ?]|].
Qed.

Lemma failed_run_leaves_no_trace_witness :
  result (execute_lottery Sample.env Sample.july_resolved Sample.one_car)
  = Raise (HTTP_409_CONFLICT "2025-07" (Some "6680a1b2c3d4e5f601234567"))
  ∧ store (execute_lottery Sample.env Sample.july_resolved Sample.one_car)
    = Sample.july_resolved
  ∧ outbox (execute_lottery Sample.env Sample.july_resolved Sample.one_car) = [].
Proof.
  split; [vm_compute; reflexivity|].
  apply (failed_run_leaves_no_trace Sample.env Sample.july_resolved Sample.one_car
           (HTTP_409_CONFLICT "2025-07" (Some "6680a1b2c3d4e5f601234567"))).
  vm_compute. reflexivity.
Defined.

End Outcomes.

(** * Further properties: where the entries come from and who is written to *)

Section Provenance.
Import LotteryService BaseRepository.

(** A candidate carries the stored resident its request names, whose id
    is the print of the [ObjectId] the request spells. *)
Lemma candidate_resident (db : DB) (r : Request.t) (it : Item) :
  candidate db r = Some it →
  ∃ u, it = Build_Item r u 0
       ∧ get (Request.user_id r) (users db) = Some u
       ∧ u ∈ users db
       ∧ ObjectId (Request.user_id r) = Some (User.id u).
Proof.
  unfold candidate. destruct (get (Request.user_id r) (users db)) as [u|] eqn:E;
    [|done].
  simpl. intros [= <-]. exists u. split; [done|]. split; [done|].
  unfold get in E. destruct (ObjectId (Request.user_id r)) as [obj_id|]; [|done].
  apply head_Some_elem_of in E. apply list_elem_of_filter in E as [Hid Hin].
  simpl in Hid. split; [done|]. congruence.
Qed.

Lemma loaded_requests (db : DB) (period : string) (r : Request.t) :
  r ∈ accepted_requests db period →
  r ∈ requests db ∧ Request.lottery_period r = period ∧ Request.status r = accepted.
Proof.
  unfold accepted_requests, find_many. rewrite drop_0.
  intros Hr%subseteq_take. apply list_elem_of_filter in Hr as [Hq Hr].
  unfold accepted_query in Hq. apply andb_prop in Hq as [H1 H2].
  apply bool_decide_eq_true in H1, H2. done.
Qed.

(** Every entry of a run stands for a loaded request and its resident. *)
Lemma run_entry (env : Env) (db : DB) (d : LotteryCreate.t) (res : LotteryResult.t)
    (e : LotteryParticipantResult.t) :
  result (execute_lottery env db d) = Ok res →
  e ∈ LotteryResult.winners res ++ LotteryResult.non_winners res →
  ∃ r u, r ∈ accepted_requests db (LotteryCreate.period d)
         ∧ get (Request.user_id r) (users db) = Some u
         ∧ u ∈ users db
         ∧ ObjectId (Request.user_id r) = Some (User.id u)
         ∧ unassigned e = participant (Build_Item r u 0) None.
Proof.
  intros Hres He.
  apply execute_lottery_Ok in Hres as (_ & _ & items & -> & _ & Hitems).
  pose proof (allocation_inv d items) as Hinv.
  apply (run_items env) in Hitems as [prev Hperm]. simpl in He.
  assert (unassigned e ∈ (fun it => participant it None) <$> items) as Hin.
  { rewrite <- (inv_entries _ _ _ _ Hinv). apply list_elem_of_fmap. by exists e. }
  apply list_elem_of_fmap in Hin as (it & Eit & Hit).
  rewrite Hperm in Hit. apply list_elem_of_fmap in Hit as (it0 & -> & Hit0).
  apply list_elem_of_omap in Hit0 as (r & Hr & Hc).
  apply candidate_resident in Hc as (u & -> & Hu & Hin & Hid).
  by exists r, u.
Qed.

(** X13. Every entry a run records, winner or not, stands for a request
    stored as accepted for the period of the run and for the stored
    resident [get] returns for the id that request spells: it carries the
    id, cc, name and apartment of that resident, the id being the print of
    the [ObjectId] the request spells, and the vehicle type, plate and id
    of the request.  Requests that are pending or rejected, or of another
    period, leave no entry. *)
Theorem entries_come_from_accepted_requests (env : Env) (db : DB)
    (d : LotteryCreate.t) (res : LotteryResult.t) (e : LotteryParticipantResult.t) :
  result (execute_lottery env db d) = Ok res →
  e ∈ LotteryResult.winners res ++ LotteryResult.non_winners res →
  ∃ r u,
    r ∈ requests db
    ∧ Request.lottery_period r = LotteryCreate.period d
    ∧ Request.status r = accepted
    ∧ get (Request.user_id r) (users db) = Some u
    ∧ ObjectId (Request.user_id r) = Some (User.id u)
    ∧ e = LotteryParticipantResult.mk (User.id u) (User.cc u)
            (User.full_name u) (User.apartment u) (Request.vehicle_type r)
            (Request.license_plate r) (LotteryParticipantResult.spot e)
            (Request.id r).
Proof.
  intros Hres He.
  destruct (run_entry env db d res e Hres He) as (r & u & Hr & Hu & _ & Hid & Eu).
  apply loaded_requests in Hr as (Hin & Hp & Hs).
  exists r, u. split_and!; [done..|].
  destruct e. unfold unassigned, participant in Eu. simpl in *.
  by injection Eu as -> -> -> -> -> -> ->.
Qed.

Lemma entries_come_from_accepted_requests_witness :
  result (execute_lottery Sample.env Sample.july Sample.one_car)
  = Ok SampleRuns.july_result
  ∧ participant (Build_Item Sample.luis_car Sample.luis 1000) (Some "C-01")
    ∈ LotteryResult.winners SampleRuns.july_result
        ++ LotteryResult.non_winners SampleRuns.july_result
  ∧ ∃ r u,
      r ∈ requests Sample.july
      ∧ Request.status r = accepted
      ∧ get (Request.user_id r) (users Sample.july) = Some u
      ∧ User.id u = User.id Sample.luis
      ∧ Request.id r = Request.id Sample.luis_car.
Proof.
  split; [vm_compute; reflexivity|].
  split; [vm_compute; apply list_elem_of_here|].
  destruct (entries_come_from_accepted_requests Sample.env Sample.july Sample.one_car
              SampleRuns.july_result
              (participant (Build_Item Sample.luis_car Sample.luis 1000) (Some "C-01")))
    as (r & u & H1 & _ & H2 & H3 & _ & H4).
  - vm_compute. reflexivity.
  - vm_compute. apply list_elem_of_here.
  - exists r, u. split_and!; [done..| |].
    + apply (f_equal LotteryParticipantResult.user_id) in H4. by simpl in H4.
    + apply (f_equal LotteryParticipantResult.request_id) in H4. by simpl in H4.
Defined.

End Provenance.

Section Notifications.
Import LotteryService BaseRepository.

Lemma recipient_address (db : DB) (p : LotteryParticipantResult.t) :
  recipient db p = match address db p with
                   | "" => None
                   | a => Some a
                   end.
Proof.
  unfold recipient, address.
  by destruct (get (LotteryParticipantResult.user_id p) (users db)).
Qed.

Lemma recipient_Some (db : DB) (p : LotteryParticipantResult.t) (a : string) :
  recipient db p = Some a → a = address db p ∧ a ≠ "".
Proof.
  rewrite recipient_address. destruct (address db p); [done|]. by intros [= <-].
Qed.

Lemma length_omap_le {A B} (f : A → option B) (l : list A) :
  (length (omap f l) ≤ length l)%nat.
Proof. pose proof (length_omap_filter f l). lia. Qed.

Lemma run_outbox (env : Env) (db : DB) (d : LotteryCreate.t) (res : LotteryResult.t) :
  result (execute_lottery env db d) = Ok res →
  outbox (execute_lottery env db d) = _send_lottery_notifications db res true.
Proof.
  unfold execute_lottery.
  destruct (find_one _ (lotteries db)) as [existing|]; [done|].
  destruct (accepted_requests db _) as [|r reqs].
  - unfold LotteryResult_new, create. destruct (_ && _ && _); [|done].
    destruct (forallb int64 _); [|done]. simpl. by intros [= <-].
  - destruct (_get_previous_period_non_winners db _) as [prev|]; [|done].
    unfold LotteryResult_new, create. destruct (_ && _ && _); [|done].
    destruct (forallb int64 _); [|done]. simpl. by intros [= <-].
Qed.

(** X14. After a run mail goes only to participants of that run, each at
    the stored, non-empty address of the resident: a winner mail names the
    spot of a winner entry, a non-winner mail stands for a non-winner
    entry, and there are no more mails than entries. *)
Theorem mail_goes_to_participants (env : Env) (db : DB) (d : LotteryCreate.t)
    (res : LotteryResult.t) :
  result (execute_lottery env db d) = Ok res →
  Forall (fun m =>
            match m with
            | WinnerEmail to spot =>
                ∃ w, w ∈ LotteryResult.winners res ∧ to = address db w ∧ to ≠ ""
                     ∧ spot = LotteryParticipantResult.spot w ∧ is_Some spot
            | NonWinnerEmail to =>
                ∃ l, l ∈ LotteryResult.non_winners res ∧ to = address db l ∧ to ≠ ""
            end)
         (outbox (execute_lottery env db d))
  ∧ (length (outbox (execute_lottery env db d))
     ≤ length (LotteryResult.winners res) + length (LotteryResult.non_winners res))%nat.
Proof.
  intros Hres. rewrite (run_outbox env db d res Hres).
  apply execute_lottery_Ok in Hres as (_ & _ & items & -> & _ & _).
  pose proof (allocation_inv d items) as Hinv. simpl.
  unfold _send_lottery_notifications. simpl. split.
  - apply Forall_app. split; apply Forall_forall; intros m Hm;
      apply list_elem_of_omap in Hm as (p & Hp & Hm);
      destruct (recipient db p) as [a|] eqn:Ea; try discriminate Hm;
      simpl in Hm; injection Hm as <-;
      apply recipient_Some in Ea as [-> Hne]; exists p.
    + split_and!; [done..|].
      pose proof (inv_winners _ _ _ _ Hinv) as Ht. rewrite Forall_forall in Ht.
      specialize (Ht p Hp). by destruct (LotteryParticipantResult.spot p).
    + done.
  - rewrite length_app. apply Nat.add_le_mono; apply length_omap_le.
Qed.

Lemma mail_goes_to_participants_witness :
  result (execute_lottery Sample.env Sample.july Sample.one_car)
  = Ok SampleRuns.july_result
  ∧ outbox (execute_lottery Sample.env Sample.july Sample.one_car)
    = [WinnerEmail "luis@condominio.com" (Some "C-01");
       NonWinnerEmail "ana@condominio.com"]
  ∧ (length (outbox (execute_lottery Sample.env Sample.july Sample.one_car))
     ≤ length (LotteryResult.winners SampleRuns.july_result)
       + length (LotteryResult.non_winners SampleRuns.july_result))%nat.
Proof.
  split; [vm_compute; reflexivity|]. split; [vm_compute; reflexivity|].
  destruct (mail_goes_to_participants Sample.env Sample.july Sample.one_car
              SampleRuns.july_result) as [_ H].
  - vm_compute. reflexivity.
  - exact H.
Defined.

(** X15. When every stored resident has an address, a run writes to every
    participant, once for each entry and in the order of the result:
    first the winners, each told the spot of the entry, then the
    non-winners. *)
Theorem every_participant_is_written_to (env : Env) (db : DB) (d : LotteryCreate.t)
    (res : LotteryResult.t) :
  result (execute_lottery env db d) = Ok res →
  Forall (fun u => User.email u ≠ "") (users db) →
  outbox (execute_lottery env db d)
  = ((fun w => WinnerEmail (address db w) (LotteryParticipantResult.spot w))
       <$> LotteryResult.winners res)
    ++ ((fun l => NonWinnerEmail (address db l)) <$> LotteryResult.non_winners res)
  ∧ Forall (fun e => address db e ≠ "")
           (LotteryResult.winners res ++ LotteryResult.non_winners res).
Proof.
  intros Hres Hmail.
  assert (Forall (fun e => address db e ≠ "")
            (LotteryResult.winners res ++ LotteryResult.non_winners res)) as Haddr.
  { apply Forall_forall. intros e He.
    destruct (run_entry env db d res e Hres He) as (r & u & _ & Hu & Hin & Hid & Eu).
    apply (f_equal LotteryParticipantResult.user_id) in Eu. simpl in Eu.
    unfold address. rewrite Eu.
    rewrite (get_spelling _ _ _ _ Hid (ObjectId_idem _ _ Hid)), Hu.
    rewrite Forall_forall in Hmail. by apply Hmail. }
  split; [|done].
  rewrite (run_outbox env db d res Hres). unfold _send_lottery_notifications.
  apply Forall_app in Haddr as [Hw Hn]. f_equal.
  - induction Hw as [|w ws Hw _ IH]; [done|]. csimpl.
    rewrite recipient_address. destruct (address db w) eqn:E; [done|].
    csimpl. by rewrite IH.
  - induction Hn as [|l ls Hl _ IH]; [done|]. csimpl.
    rewrite recipient_address. destruct (address db l) eqn:E; [done|].
    csimpl. by rewrite IH.
Qed.

Lemma every_participant_is_written_to_witness :
  result (execute_lottery Sample.env Sample.july Sample.one_car)
  = Ok SampleRuns.july_result
  ∧ Forall (fun u => User.email u ≠ "") (users Sample.july)
  ∧ length (outbox (execute_lottery Sample.env Sample.july Sample.one_car)) = 2%nat.
Proof.
  split; [vm_compute; reflexivity|].
  assert (Forall (fun u => User.email u ≠ "") (users Sample.july)) as Hmail
    by (repeat constructor; discriminate).
  split; [exact Hmail|].
  destruct (every_participant_is_written_to Sample.env Sample.july Sample.one_car
              SampleRuns.july_result) as [H _].
  - vm_compute. reflexivity.
  - exact Hmail.
  - rewrite H. vm_compute. reflexivity.
Defined.

End Notifications.

(** * Further properties: the order of the candidates and the walk *)

Section FinalOrder.
Import LotteryService BaseRepository.

(** X16. The final order of the candidates holds every scored candidate
    once, its scores never rise from one place to the next, and the
    sequence of scores is the same whatever the shuffle draws: the draws
    only move candidates within a tier. *)
Theorem final_order_is_by_score (env : Env) (db : DB) (period : string)
    (prev : list string) :
  ordered_candidates env db period prev ≡ₚ scored_requests db period prev
  ∧ (∀ i j x y,
       (i < j)%nat →
       ordered_candidates env db period prev !! i = Some x →
       ordered_candidates env db period prev !! j = Some y →
       priority_score y ≤ priority_score x)
  ∧ ∀ env', priority_score <$> ordered_candidates env' db period prev
            = priority_score <$> ordered_candidates env db period prev.
Proof.
  unfold ordered_candidates. split_and!.
  - apply final_sorted_requests_perm.
  - intros i j x y Hij Hi Hj.
    by apply (descending_lookup priority_score _ i j x y
                (final_sorted_requests_descending
                   (scored_requests db period prev) (random env))).
  - intros env'. by rewrite !final_sorted_requests_scores.
Qed.

Lemma groupby_singletons {A} (key : A → Z) (l : list A) :
  NoDup (key <$> l) → Py.groupby key l = (fun x => (key x, [x])) <$> l.
Proof.
  induction l as [|x l IH]; [done|].
  rewrite fmap_cons, NoDup_cons. intros [Hx Hnd]. simpl. rewrite (IH Hnd).
  destruct l as [|y l']; [done|]. simpl.
  destruct (Z.eqb_spec (key x) (key y)) as [E|_]; [|done].
  exfalso. apply Hx. rewrite E. apply list_elem_of_here.
Qed.

Lemma shuffle_groups_singletons (l : list Item) (g : Py.Random) :
  shuffle_groups ((fun x => (priority_score x, [x])) <$> l) g = (l, g).
Proof.
  induction l as [|x l IH]; [done|].
  rewrite fmap_cons. cbn [shuffle_groups]. unfold Py.shuffle.
  cbn [length Nat.sub Py.shuffle_from]. by rewrite IH.
Qed.

(** X17. When no two candidates have the same score the draws play no
    part: the final order is the candidates sorted by score, highest
    first. *)
Theorem distinct_scores_leave_no_choice (items : list Item) (g : Py.Random) :
  NoDup (priority_score <$> items) →
  final_sorted_requests items g = Py.sort_desc priority_score items.
Proof.
  intros Hnd. unfold final_sorted_requests.
  rewrite (groupby_singletons priority_score) by (by rewrite sort_desc_perm).
  by rewrite shuffle_groups_singletons.
Qed.

Lemma distinct_scores_leave_no_choice_witness :
  NoDup (priority_score
           <$> [Build_Item Sample.ana_car Sample.ana 100;
                Build_Item Sample.luis_car Sample.luis 1000])
  ∧ final_sorted_requests
      [Build_Item Sample.ana_car Sample.ana 100;
       Build_Item Sample.luis_car Sample.luis 1000] [7; 7; 7]%nat
    = [Build_Item Sample.luis_car Sample.luis 1000;
       Build_Item Sample.ana_car Sample.ana 100].
Proof.
  assert (NoDup (priority_score
                   <$> [Build_Item Sample.ana_car Sample.ana 100;
                        Build_Item Sample.luis_car Sample.luis 1000])) as Hnd.
  { apply (bool_decide_unpack _). vm_compute. reflexivity. }
  split; [exact Hnd|].
  rewrite (distinct_scores_leave_no_choice _ [7; 7; 7]%nat Hnd).
  vm_compute. reflexivity.
Defined.

(** X18. The user cache changes nothing in what is resolved: the
    candidates are the loaded requests whose resident is stored, in the
    order loaded, each with the resident a direct lookup of the request's
    [user_id] returns and with score 0. *)
Theorem cache_is_transparent (db : DB) (reqs : list Request.t) :
  request <$> requests_with_user_info db reqs
  = filter (fun r => is_Some (get (Request.user_id r) (users db))) reqs
  ∧ Forall (fun it => get (Request.user_id (request it)) (users db) = Some (user it)
                      ∧ priority_score it = 0)
           (requests_with_user_info db reqs).
Proof.
  rewrite requests_with_user_info_spec. split; [apply resolved_requests|].
  apply Forall_forall. intros it (r & _ & Hc)%list_elem_of_omap.
  by apply candidate_resident in Hc as (u & -> & Hu & _).
Qed.

End FinalOrder.

Section WalkReasons.
Import LotteryService BaseRepository.
Context (cars motos : list string).

Lemma excused_lose (w : Walk) (item : Item) :
  Forall (excused w) (non_winners w) →
  excused w (participant item None) →
  Forall (excused
            {| car_spots := car_spots w; moto_spots := moto_spots w;
               winners := winners w;
               non_winners := non_winners w ++ [participant item None];
               assigned_users_and_vehicle_types :=
                 assigned_users_and_vehicle_types w |})
         (non_winners w ++ [participant item None]).
Proof.
  intros Hall He. apply Forall_app. split.
  - eapply Forall_impl; [exact Hall|]. intros e H. exact H.
  - apply Forall_singleton. exact He.
Qed.

Lemma excused_assign (seen : list Item) (w : Walk) (item : Item) :
  walk_inv cars motos seen w →
  Forall (excused w) (non_winners w) →
  Forall (excused (assign w item)) (non_winners (assign w item)).
Proof.
  intros Hinv Hall. unfold assign.
  case_bool_decide as Hkey.
  { apply excused_lose; [done|]. by left. }
  pose proof (inv_truthy _ _ _ _ Hinv) as Ht.
  destruct (Request.vehicle_type (request item)) eqn:V.
  - destruct (car_spots w) as [|s cars'] eqn:E.
    + simpl. rewrite <- E. apply excused_lose; [done|].
      right. simpl. by rewrite V.
    + apply Forall_app in Ht as [Ht _]. inversion_clear Ht as [|? ? Hs _].
      rewrite Hs. simpl. eapply Forall_impl; [exact Hall|].
      intros e. unfold excused.
      destruct (LotteryParticipantResult.vehicle_type e); simpl;
        (intros [Hk|Hn]; [left; set_solver|]); (congruence || by right).
  - destruct (moto_spots w) as [|s motos'] eqn:E.
    + simpl. rewrite <- E. apply excused_lose; [done|].
      right. simpl. by rewrite V.
    + apply Forall_app in Ht as [_ Ht]. inversion_clear Ht as [|? ? Hs _].
      rewrite Hs. simpl. eapply Forall_impl; [exact Hall|].
      intros e. unfold excused.
      destruct (LotteryParticipantResult.vehicle_type e); simpl;
        (intros [Hk|Hn]; [left; set_solver|]); (congruence || by right).
Qed.

Lemma excused_walk (items seen : list Item) (w : Walk) :
  walk_inv cars motos seen w →
  Forall (excused w) (non_winners w) →
  Forall (excused (walk items w)) (non_winners (walk items w)).
Proof.
  revert seen w. induction items as [|item items IH]; intros seen w Hinv Hall;
    [done|].
  simpl. apply (IH (seen ++ [item])).
  - by apply assign_inv.
  - by eapply excused_assign.
Qed.

End WalkReasons.

Section WalkOutcomes.
Import LotteryService BaseRepository.

(** X19. Nobody is turned away while a spot of the category is free,
    repeated requests apart: each non-winner of a run either has the
    resident and vehicle type of one of the winners, or belongs to a
    category all of whose offered spots went to winners. *)
Theorem non_winner_has_a_reason (env : Env) (db : DB) (d : LotteryCreate.t)
    (res : LotteryResult.t) (e : LotteryParticipantResult.t) :
  result (execute_lottery env db d) = Ok res →
  e ∈ LotteryResult.non_winners res →
  entry_pair e ∈ entry_pair <$> LotteryResult.winners res
  ∨ Z.of_nat (length (of_category (LotteryParticipantResult.vehicle_type e)
                        (LotteryResult.winners res)))
    = offered d (LotteryParticipantResult.vehicle_type e).
Proof.
  intros Hres He.
  apply execute_lottery_Ok in Hres as (Hv & _ & items & -> & _ & _).
  pose proof (allocation_inv d items) as Hinv. simpl in He. simpl.
  assert (Forall (excused (allocation d items)) (non_winners (allocation d items)))
    as Hall.
  { unfold allocation.
    apply (excused_walk
             (fst (_generate_spots (LotteryCreate.num_car_spots d)
                     (LotteryCreate.num_moto_spots d)))
             (snd (_generate_spots (LotteryCreate.num_car_spots d)
                     (LotteryCreate.num_moto_spots d))) items []).
    - rewrite (surjective_pairing (_generate_spots _ _)). simpl.
      apply start_inv, generate_spots_truthy.
    - constructor. }
  rewrite Forall_forall in Hall. destruct (Hall e He) as [Hk|Hn].
  - left. apply (inv_assigned _ _ _ _ Hinv) in Hk.
    apply list_elem_of_fmap in Hk as (w & Ek & Hw).
    apply list_elem_of_fmap. exists w. split; [|done].
    unfold entry_key in Ek. apply key_inj in Ek as [E1 E2].
    unfold entry_pair. by rewrite E1, E2.
  - right.
    pose proof (winners_of_category_length _ _ _ _
                  (LotteryParticipantResult.vehicle_type e) Hinv) as Hlen.
    rewrite <- surjective_pairing, spots_offered in Hlen.
    rewrite Hn in Hlen. simpl in Hlen.
    unfold LotteryCreate_valid in Hv.
    apply andb_prop in Hv as [[_ Hc%Z.leb_le]%andb_prop Hm%Z.leb_le].
    assert (0 ≤ offered d (LotteryParticipantResult.vehicle_type e)) as Hoff
      by (by destruct (LotteryParticipantResult.vehicle_type e)).
    lia.
Qed.

Lemma non_winner_has_a_reason_witness :
  result (execute_lottery Sample.env Sample.july Sample.one_car)
  = Ok SampleRuns.july_result
  ∧ participant (Build_Item Sample.ana_car Sample.ana 100) None
    ∈ LotteryResult.non_winners SampleRuns.july_result
  ∧ (entry_pair (participant (Build_Item Sample.ana_car Sample.ana 100) None)
     ∈ entry_pair <$> LotteryResult.winners SampleRuns.july_result
     ∨ Z.of_nat (length (of_category automovil
                           (LotteryResult.winners SampleRuns.july_result)))
       = offered Sample.one_car automovil).
Proof.
  split; [vm_compute; reflexivity|].
  split; [vm_compute; apply list_elem_of_here|].
  apply (non_winner_has_a_reason Sample.env Sample.july Sample.one_car
           SampleRuns.july_result
           (participant (Build_Item Sample.ana_car Sample.ana 100) None)).
  - vm_compute. reflexivity.
  - vm_compute. apply list_elem_of_here.
Defined.

(** X20. Within a category the spots go out in the order generated,
    lowest number first and without gaps: the spots of the car winners,
    in winner order, are the first generated car identifiers, and likewise
    for motorcycles. *)
Theorem spots_go_out_in_order (env : Env) (db : DB) (d : LotteryCreate.t)
    (res : LotteryResult.t) :
  result (execute_lottery env db d) = Ok res →
  let spots := _generate_spots (LotteryCreate.num_car_spots d)
                 (LotteryCreate.num_moto_spots d) in
  LotteryParticipantResult.spot <$> of_category automovil (LotteryResult.winners res)
  = Some <$> take (length (of_category automovil (LotteryResult.winners res)))
               (fst spots)
  ∧ LotteryParticipantResult.spot
      <$> of_category motocicleta (LotteryResult.winners res)
    = Some <$> take (length (of_category motocicleta (LotteryResult.winners res)))
                 (snd spots).
Proof.
  intros Hres spots. subst spots.
  apply execute_lottery_Ok in Hres as (_ & _ & items & -> & _ & _).
  pose proof (allocation_inv d items) as Hinv.
  unfold produced. cbn [LotteryResult.winners].
  split.
  - rewrite fmap_take, <- (inv_cars _ _ _ _ Hinv).
    rewrite <- (length_fmap LotteryParticipantResult.spot).
    by rewrite take_app_length.
  - rewrite fmap_take, <- (inv_motos _ _ _ _ Hinv).
    rewrite <- (length_fmap LotteryParticipantResult.spot).
    by rewrite take_app_length.
Qed.

Lemma spots_go_out_in_order_witness :
  result (execute_lottery Sample.env Sample.july Sample.two_cars)
  = Ok (produced Sample.env Sample.two_cars
          (allocation Sample.two_cars
             (ordered_candidates Sample.env Sample.july "2025-07" [])))
  ∧ LotteryParticipantResult.spot
      <$> of_category automovil
            (winners (allocation Sample.two_cars
                        (ordered_candidates Sample.env Sample.july "2025-07" [])))
    = [Some "C-01"; Some "C-02"].
Proof.
  split; [vm_compute; reflexivity|].
  destruct (spots_go_out_in_order Sample.env Sample.july Sample.two_cars
              (produced Sample.env Sample.two_cars
                 (allocation Sample.two_cars
                    (ordered_candidates Sample.env Sample.july "2025-07" []))))
    as [H _].
  - vm_compute. reflexivity.
  - etransitivity; [exact H|]. vm_compute. reflexivity.
Defined.

End WalkOutcomes.

(** * Further properties: periods written in ASCII digits *)

Section AsciiPeriods.
Import LotteryService BaseRepository.

Lemma zeros_snoc (k : nat) : Py.zeros k +:+ "0" = Py.zeros (S k).
Proof.
  induction k as [|k IH]; [done|].
  change (String "0" (Py.zeros k +:+ "0") = String "0" (Py.zeros (S k))).
  by f_equal.
Qed.

Lemma length_zeros_app (k : nat) (s : string) :
  String.length (Py.zeros k +:+ s) = (k + String.length s)%nat.
Proof.
  induction k as [|k IH]; [done|].
  change (S (String.length (Py.zeros k +:+ s)) = S (k + String.length s)).
  by f_equal.
Qed.

Lemma zfill_pad (k : nat) (s : string) :
  Py.zfill (k + String.length s) s = Py.zeros k +:+ s.
Proof. unfold Py.zfill. by replace (k + String.length s - String.length s)%nat with k by lia. Qed.

(** The digits before the first non-zero one are zeros. *)
Lemma string_of_uint_nzhead (d : uint) :
  ∃ k, NilEmpty.string_of_uint d
       = Py.zeros k +:+ NilEmpty.string_of_uint (nzhead d).
Proof.
  induction d as [|d [k IH]| | | | | | | | |]; try (by exists O).
  exists (S k). simpl. by rewrite IH.
Qed.

Lemma zfill_zero (k : nat) : (1 ≤ k)%nat → Py.zfill k "0" = Py.zeros k.
Proof.
  destruct k as [|k]; [lia|]. intros _. unfold Py.zfill.
  replace (S k - String.length "0")%nat with k by (simpl; lia).
  apply zeros_snoc.
Qed.

Lemma append_empty (s : string) : s +:+ "" = s.
Proof.
  induction s as [|c s IH]; [done|].
  change (String c (s +:+ "") = String c s). by f_equal.
Qed.

(** Printing the value of a string of digits at the width of the string
    gives the string back. *)
Lemma zfill_digits (d : uint) :
  d ≠ Nil →
  Py.zfill (String.length (NilEmpty.string_of_uint d)) (Py.digits (N.of_uint d))
  = NilEmpty.string_of_uint d.
Proof.
  intros Hd. unfold Py.digits. rewrite DecimalN.Unsigned.to_of.
  destruct (string_of_uint_nzhead d) as [k Hk]. rewrite Hk, length_zeros_app.
  assert (nzhead d = Nil ∨ nzhead d ≠ Nil) as [E|E]
    by (destruct (nzhead d); (by left) || (by right)).
  - assert (unorm d = zero) as -> by (by apply DecimalFacts.unorm_0).
    rewrite E in Hk |- *.
    change (NilEmpty.string_of_uint Nil) with "" in Hk |- *.
    change (NilEmpty.string_of_uint zero) with "0".
    rewrite append_empty in Hk |- *. cbn [String.length]. rewrite Nat.add_0_r.
    apply zfill_zero. destruct k as [|k]; [|lia].
    destruct d; discriminate Hk || done.
  - rewrite DecimalFacts.unorm_nzhead by done. apply zfill_pad.
Qed.

Lemma format_int (s : string) :
  all_digits s = true → s ≠ "" →
  ∃ n, Py.int s = Some n ∧ 0 ≤ n ∧ Py.format_0d (String.length s) n = s.
Proof.
  intros Hs Hne. destruct (uint_of_string_digits s Hs) as [d Hd].
  pose proof (NilEmpty.sus s d Hd) as Hsd.
  exists (Z.of_N (N.of_uint d)). split_and!.
  - unfold Py.int. destruct s; [done|]. by rewrite Hd.
  - lia.
  - unfold Py.format_0d. destruct (Z.ltb_spec (Z.of_N (N.of_uint d)) 0); [lia|].
    rewrite N2Z.id, <- Hsd. apply zfill_digits. intros ->. by rewrite <- Hsd in Hne.
Qed.

(** X21. Every period of four ASCII digits, a dash and two ASCII digits
    is the print of a year and a month, the numbers [int] reads off its
    two halves; so the resolver does not raise on it and returns the print
    of the month before, December of the year before when the month is
    1. *)
Theorem ascii_period_has_a_predecessor (s : string) :
  period_pattern s = true →
  ∃ y m,
    0 ≤ y ∧ 0 ≤ m
    ∧ s = format_period y m
    ∧ previous_period s
      = Ok (if m =? 1 then format_period (y - 1) 12 else format_period y (m - 1)).
Proof.
  intros Hs. unfold period_pattern in Hs.
  destruct s as [|y1 [|y2 [|y3 [|y4 [|dash [|m1 [|m2 [|? ?]]]]]]]]; try discriminate Hs.
  apply andb_prop in Hs as [Hs Hm2]. apply andb_prop in Hs as [Hs Hm1].
  apply andb_prop in Hs as [Hs Hd]. apply andb_prop in Hs as [Hs H4].
  apply andb_prop in Hs as [Hs H3]. apply andb_prop in Hs as [H1 H2].
  apply Ascii.eqb_eq in Hd as ->.
  assert (all_digits (String y1 (String y2 (String y3 (String y4 "")))) = true) as Hy.
  { simpl. by rewrite H1, H2, H3, H4. }
  assert (all_digits (String m1 (String m2 "")) = true) as Hm.
  { simpl. by rewrite Hm1, Hm2. }
  destruct (format_int _ Hy) as (y & _ & Hy0 & Ey); [done|].
  destruct (format_int _ Hm) as (m & _ & Hm0 & Em); [done|].
  exists y, m.
  assert (String y1 (String y2 (String y3 (String y4 (String "-" (String m1 (String m2 ""))))))
          = format_period y m) as E.
  { unfold format_period. simpl in Ey, Em. by rewrite Ey, Em. }
  split_and!; [done..|].
  rewrite E. by apply previous_period_format.
Qed.

Lemma ascii_period_has_a_predecessor_witness :
  period_pattern "2026-01" = true
  ∧ ∃ y m,
      0 ≤ y ∧ 0 ≤ m
      ∧ "2026-01" = format_period y m
      ∧ previous_period "2026-01"
        = Ok (if m =? 1 then format_period (y - 1) 12 else format_period y (m - 1)).
Proof.
  split; [reflexivity|].
  apply (ascii_period_has_a_predecessor "2026-01"). reflexivity.
Defined.

End AsciiPeriods.

(** * Further properties: what a run records, and the repository *)

Section Records.
Import LotteryService BaseRepository.

(** X22. A successful run adds one document to the lotteries, the one it
    returns, and touches neither the requests nor the users; the document
    carries the id the driver allocated, the period and the two totals as
    supplied, and the time of the run. *)
Theorem run_records_what_was_asked (env : Env) (db : DB) (d : LotteryCreate.t)
    (res : LotteryResult.t) :
  result (execute_lottery env db d) = Ok res →
  store (execute_lottery env db d)
  = {| lotteries := lotteries db ++ [res];
       requests := requests db; users := users db |}
  ∧ LotteryResult.id res = Some (new_oid env)
  ∧ LotteryResult.period res = LotteryCreate.period d
  ∧ LotteryResult.total_car_spots_offered res = LotteryCreate.num_car_spots d
  ∧ LotteryResult.total_moto_spots_offered res = LotteryCreate.num_moto_spots d
  ∧ LotteryResult.executed_at res = utcnow env.
Proof.
  intros Hres.
  by apply execute_lottery_Ok in Hres as (_ & _ & items & -> & -> & _).
Qed.

Lemma run_records_what_was_asked_witness :
  result (execute_lottery Sample.env Sample.july Sample.one_car)
  = Ok SampleRuns.july_result
  ∧ store (execute_lottery Sample.env Sample.july Sample.one_car)
    = {| lotteries := [SampleRuns.july_result];
         requests := requests Sample.july; users := users Sample.july |}
  ∧ LotteryResult.id SampleRuns.july_result = Some "6680a1b2c3d4e5f601234567".
Proof.
  split; [vm_compute; reflexivity|].
  destruct (run_records_what_was_asked Sample.env Sample.july Sample.one_car
              SampleRuns.july_result) as (H1 & H2 & _).
  - vm_compute. reflexivity.
  - split; [exact H1|exact H2].
Defined.

(** X23. With no spot offered for a category nobody of that category
    wins: every entry of the category is a non-winner. *)
Theorem no_spot_no_winner (env : Env) (db : DB) (d : LotteryCreate.t)
    (res : LotteryResult.t) (c : VehicleType) :
  result (execute_lottery env db d) = Ok res →
  offered d c = 0 →
  of_category c (LotteryResult.winners res) = []
  ∧ Forall (fun e => LotteryParticipantResult.vehicle_type e ≠ c)
           (LotteryResult.winners res).
Proof.
  intros Hres Hzero.
  apply execute_lottery_Ok in Hres as (_ & _ & items & -> & _ & _).
  pose proof (allocation_inv d items) as Hinv.
  pose proof (winners_of_category_length _ _ _ _ c Hinv) as Hlen.
  rewrite <- surjective_pairing, spots_offered, Hzero in Hlen. simpl in *.
  assert (of_category c (winners (allocation d items)) = []) as Hnil.
  { apply length_zero_iff_nil. lia. }
  split; [done|]. apply Forall_forall. intros e He Hc.
  assert (e ∈ of_category c (winners (allocation d items))) as Hin
    by (by apply list_elem_of_filter).
  rewrite Hnil in Hin. by apply elem_of_nil in Hin.
Qed.

Lemma no_spot_no_winner_witness :
  result (execute_lottery Sample.env Sample.july Sample.one_car)
  = Ok SampleRuns.july_result
  ∧ offered Sample.one_car motocicleta = 0
  ∧ of_category motocicleta (LotteryResult.winners SampleRuns.july_result) = [].
Proof.
  split; [vm_compute; reflexivity|]. split; [reflexivity|].
  destruct (no_spot_no_winner Sample.env Sample.july Sample.one_car
              SampleRuns.july_result motocicleta) as [H _].
  - vm_compute. reflexivity.
  - reflexivity.
  - exact H.
Defined.

Section Documents.
Context {A : Type} `{Model A}.

(** X24. Pages of [find_many] fit together: a page of [l1] documents
    followed by the page of [l2] that starts where it ended is the page of
    [l1 + l2]; a page holds no more than its limit, and only stored
    documents that match the query. *)
Theorem pages_fit_together (query : A → bool) (skip l1 l2 : nat)
    (collection : list A) :
  (0 < l1)%nat → (0 < l2)%nat →
  find_many query skip l1 collection ++ find_many query (skip + l1) l2 collection
  = find_many query skip (l1 + l2) collection
  ∧ (length (find_many query skip l1 collection) ≤ l1)%nat
  ∧ Forall (fun d => query d = true ∧ d ∈ collection)
           (find_many query skip l1 collection).
Proof.
  intros H1 H2. unfold find_many.
  destruct l1 as [|l1]; [lia|]. destruct l2 as [|l2]; [lia|].
  change (S l1 + S l2)%nat with (S (l1 + S l2)).
  split_and!.
  - rewrite <- drop_drop. apply take_take_drop.
  - rewrite length_take. lia.
  - apply Forall_forall. intros d Hd%subseteq_take.
    assert (d ∈ filter (fun d => query d = true) collection) as Hin.
    { rewrite <- (take_drop skip). apply elem_of_app. by right. }
    by apply list_elem_of_filter in Hin.
Qed.

End Documents.

Lemma pages_fit_together_witness :
  (0 < 1)%nat ∧ (0 < 1)%nat
  ∧ find_many (accepted_query "2025-07") 0 1 (requests Sample.july)
      ++ find_many (accepted_query "2025-07") 1 1 (requests Sample.july)
    = find_many (accepted_query "2025-07") 0 2 (requests Sample.july).
Proof.
  split; [lia|]. split; [lia|].
  destruct (pages_fit_together (accepted_query "2025-07") 0 1 1
              (requests Sample.july)) as [H _]; [lia|lia|].
  exact H.
Defined.

(** X25. [create] followed by [get]: a result whose two totals fit 8
    bytes, stored under the print of an ObjectId that no stored result
    carries, is created and is what [get] returns for every spelling of
    that id; every string that is no spelling of it reads as before, and
    the collection grows by this one document, at its end. *)
Theorem created_result_is_found (oid : string) (new : LotteryResult.t)
    (collection : list LotteryResult.t) :
  ObjectId oid = Some oid →
  (∀ l, l ∈ collection → LotteryResult.id l ≠ Some oid) →
  -9223372036854775808 ≤ LotteryResult.total_car_spots_offered new
    ≤ 9223372036854775807 →
  -9223372036854775808 ≤ LotteryResult.total_moto_spots_offered new
    ≤ 9223372036854775807 →
  ∃ created stored,
    create oid new collection = Ok (created, stored)
    ∧ (∀ same, ObjectId same = Some oid → get same stored = Some created)
    ∧ LotteryResult.id created = Some oid
    ∧ stored = collection ++ [created]
    ∧ ∀ other, ObjectId other ≠ Some oid → get other stored = get other collection.
Proof.
  intros Hoid Hfresh Hc Hm. unfold create. simpl.
  rewrite (proj2 (int64_spec _) Hc), (proj2 (int64_spec _) Hm). simpl.
  eexists _, _. split; [reflexivity|]. split_and!; [|done|done|].
  - intros same Hsame. apply (get_first _ _ _ _ _ Hsame); [|done].
    apply Forall_forall. intros l Hl. by apply Hfresh.
  - intros other Hne. unfold get. destruct (ObjectId other) as [o|]; [|done].
    rewrite filter_app, filter_cons.
    rewrite decide_False; [by rewrite app_nil_r|]. simpl. congruence.
Qed.

Lemma created_result_is_found_witness :
  ∃ created stored,
    create "6680a1b2c3d4e5f601234567" SampleRuns.idle_result [] = Ok (created, stored)
    ∧ get "6680A1B2C3D4E5F601234567" stored = Some created.
Proof.
  destruct (created_result_is_found "6680a1b2c3d4e5f601234567"
              SampleRuns.idle_result [])
    as (created & stored & Hc & Hg & _).
  - vm_compute. reflexivity.
  - intros l Hl. by apply elem_of_nil in Hl.
  - simpl. lia.
  - simpl. lia.
  - exists created, stored. split; [exact Hc|]. apply Hg. vm_compute. reflexivity.
Defined.

End Records.

(** * Further properties: the final order decides who wins *)

Section Precedence.
Import LotteryService BaseRepository.

Lemma assign_winners (w : Walk) (item : Item) :
  ∃ more, winners (assign w item) = winners w ++ more.
Proof.
  unfold assign. case_bool_decide; [exists []; by rewrite app_nil_r|].
  destruct (Request.vehicle_type (request item)).
  - destruct (car_spots w) as [|[|a s] ?]; simpl;
      (by eexists) || (exists []; by rewrite app_nil_r).
  - destruct (moto_spots w) as [|[|a s] ?]; simpl;
      (by eexists) || (exists []; by rewrite app_nil_r).
Qed.

Lemma walk_winners (items : list Item) (w : Walk) :
  ∃ more, winners (walk items w) = winners w ++ more.
Proof.
  revert w. induction items as [|item items IH]; intros w; simpl.
  - exists []. by rewrite app_nil_r.
  - destruct (IH (assign w item)) as [more2 ->].
    destruct (assign_winners w item) as [more1 ->].
    exists (more1 ++ more2). by rewrite (assoc_L app).
Qed.

(** Once a category has no spot left, no entry of it joins the winners. *)
Lemma assign_exhausted (c : VehicleType) (w : Walk) (item : Item) :
  spots_left c w = [] →
  spots_left c (assign w item) = []
  ∧ of_category c (winners (assign w item)) = of_category c (winners w).
Proof.
  intros Hc. unfold assign. case_bool_decide; [done|].
  destruct (Request.vehicle_type (request item)) eqn:V, c; simpl in Hc.
  - revert Hc. by destruct (car_spots w).
  - destruct (car_spots w) as [|[|a s] ?]; simpl; try done.
    rewrite of_category_snoc. simpl. rewrite decide_False by (by rewrite V).
    by rewrite app_nil_r.
  - destruct (moto_spots w) as [|[|a s] ?]; simpl; try done.
    rewrite of_category_snoc. simpl. rewrite decide_False by (by rewrite V).
    by rewrite app_nil_r.
  - revert Hc. by destruct (moto_spots w).
Qed.

Lemma walk_exhausted (c : VehicleType) (items : list Item) (w : Walk) :
  spots_left c w = [] →
  of_category c (winners (walk items w)) = of_category c (winners w).
Proof.
  revert w. induction items as [|item items IH]; intros w Hc; [done|].
  simpl. destruct (assign_exhausted c w item Hc) as [Hc' Hw].
  by rewrite (IH _ Hc'), Hw.
Qed.

(** What [assign] does with a candidate: it repeats an assigned key, or it
    wins, or its category has run out. *)
Lemma assign_cases (cars motos : list string) (seen : list Item) (w : Walk)
    (item : Item) :
  walk_inv cars motos seen w →
  assignment_key (user item) (request item) ∈ assigned_users_and_vehicle_types w
  ∨ (∃ s, winners (assign w item) = winners w ++ [participant item (Some s)])
  ∨ spots_left (Request.vehicle_type (request item)) (assign w item) = [].
Proof.
  intros Hinv. destruct (decide (assignment_key (user item) (request item)
                                   ∈ assigned_users_and_vehicle_types w)) as [Hk|Hk];
    [by left|right].
  unfold assign. rewrite bool_decide_eq_false_2 by done.
  pose proof (inv_truthy _ _ _ _ Hinv) as Ht.
  destruct (Request.vehicle_type (request item)) eqn:V.
  - destruct (car_spots w) as [|s cars'] eqn:E; [by right|].
    apply Forall_app in Ht as [Ht _]. inversion_clear Ht as [|? ? Hs _].
    rewrite Hs. left. by exists s.
  - destruct (moto_spots w) as [|s motos'] eqn:E; [by right|].
    apply Forall_app in Ht as [_ Ht]. inversion_clear Ht as [|? ? Hs _].
    rewrite Hs. left. by exists s.
Qed.

Lemma NoDup_fmap_eq {A B} (f : A → B) (l : list A) (x y : A) :
  NoDup (f <$> l) → x ∈ l → y ∈ l → f x = f y → x = y.
Proof.
  induction l as [|a l IH]; [by intros _ ?%elem_of_nil|].
  rewrite fmap_cons, NoDup_cons. intros [Ha Hnd] Hx Hy E.
  apply elem_of_cons in Hx as [->|Hx]; apply elem_of_cons in Hy as [->|Hy].
  - done.
  - exfalso. apply Ha. rewrite E. apply list_elem_of_fmap. by exists y.
  - exfalso. apply Ha. rewrite <- E. apply list_elem_of_fmap. by exists x.
  - by apply IH.
Qed.

(** The entries of a walk state carry the request ids of the candidates
    visited. *)
Lemma entry_visited (cars motos : list string) (seen : list Item) (w : Walk)
    (e : LotteryParticipantResult.t) :
  walk_inv cars motos seen w → e ∈ winners w →
  ∃ it, it ∈ seen
        ∧ LotteryParticipantResult.request_id e = Request.id (request it)
        ∧ LotteryParticipantResult.vehicle_type e = Request.vehicle_type (request it).
Proof.
  intros Hinv He.
  assert (unassigned e ∈ (fun it => participant it None) <$> seen) as Hin.
  { rewrite <- (inv_entries _ _ _ _ Hinv). apply list_elem_of_fmap.
    exists e. split; [done|]. apply elem_of_app. by left. }
  apply list_elem_of_fmap in Hin as (it & E & Hit). exists it.
  split_and!; [done| |].
  - by apply (f_equal LotteryParticipantResult.request_id) in E.
  - by apply (f_equal LotteryParticipantResult.vehicle_type) in E.
Qed.

(** The heart of the matter, for any list of candidates with pairwise
    distinct request ids. *)
Lemma walk_precedence (d : LotteryCreate.t) (l1 l2 : list Item) (x y : Item) :
  NoDup ((fun it => Request.id (request it)) <$> (l1 ++ x :: l2)) →
  y ∈ l2 →
  Request.vehicle_type (request x) = Request.vehicle_type (request y) →
  Request.id (request y)
    ∈ LotteryParticipantResult.request_id <$> winners (allocation d (l1 ++ x :: l2)) →
  Request.id (request x)
    ∈ LotteryParticipantResult.request_id <$> winners (allocation d (l1 ++ x :: l2))
  ∨ item_pair x ∈ item_pair <$> l1.
Proof.
  intros Hnd Hy Hvt Hwin.
  set (cars := fst (_generate_spots (LotteryCreate.num_car_spots d)
                      (LotteryCreate.num_moto_spots d))).
  set (motos := snd (_generate_spots (LotteryCreate.num_car_spots d)
                       (LotteryCreate.num_moto_spots d))).
  pose proof (allocation_inv d (l1 ++ x :: l2)) as Hall. fold cars motos in Hall.
  pose proof (allocation_inv d l1) as H1. fold cars motos in H1.
  unfold allocation in *. unfold walk in *. rewrite foldl_app in Hall, Hwin |- *.
  simpl in Hall, Hwin |- *. fold (walk l1) in *.
  set (w1 := foldl assign (start (_generate_spots (LotteryCreate.num_car_spots d)
                                    (LotteryCreate.num_moto_spots d))) l1) in *.
  fold (walk l2 (assign w1 x)) in *.
  destruct (assign_cases cars motos l1 w1 x H1) as [Hk|[[s Hs]|Hout]].
  - right. apply (inv_assigned _ _ _ _ H1) in Hk.
    apply list_elem_of_fmap in Hk as (e & Ek & He).
    symmetry in Ek. apply entry_pair_of_key in Ek. rewrite <- Ek.
    by apply (winner_visited cars motos l1 w1).
  - left. destruct (walk_winners l2 (assign w1 x)) as [more ->].
    rewrite Hs. apply list_elem_of_fmap. exists (participant x (Some s)).
    split; [done|]. rewrite !elem_of_app, list_elem_of_singleton. by left; right.
  - exfalso. apply list_elem_of_fmap in Hwin as (e & Eid & He).
    destruct (entry_visited cars motos _ _ e Hall He) as (it & Hit & Eit & Vit).
    assert (it = y) as ->.
    { apply (NoDup_fmap_eq (fun it => Request.id (request it)) (l1 ++ x :: l2));
        [done|done| |congruence].
      apply elem_of_app. right. by apply elem_of_cons; right. }
    assert (e ∈ of_category (Request.vehicle_type (request x))
                  (winners (walk l2 (assign w1 x)))) as Hcat.
    { apply list_elem_of_filter. split; [congruence|done]. }
    rewrite (walk_exhausted _ l2 _ Hout) in Hcat.
    apply list_elem_of_filter in Hcat as [_ Hcat].
    destruct (assign_winners w1 x) as [more Hmore].
    assert (e ∈ winners w1 ∨ e ∈ more) as [He1|He2].
    { rewrite Hmore in Hcat. by apply elem_of_app in Hcat. }
    + destruct (entry_visited cars motos _ _ e H1 He1) as (it1 & Hit1 & Eit1 & _).
      rewrite fmap_app in Hnd. apply NoDup_app in Hnd as (_ & Hdis & _).
      apply (Hdis (Request.id (request it1))).
      * apply list_elem_of_fmap. by exists it1.
      * apply list_elem_of_fmap. exists y. split; [congruence|].
        by apply elem_of_cons; right.
    + assert (walk_inv cars motos (l1 ++ [x]) (assign w1 x)) as H2
        by (by apply assign_inv).
      assert (e ∈ winners (assign w1 x)) as He'
        by (rewrite Hmore; apply elem_of_app; by right).
      destruct (entry_visited cars motos _ _ e H2 He') as (it2 & Hit2 & Eit2 & _).
      apply elem_of_app in Hit2 as [Hit2|Hit2%list_elem_of_singleton].
      * rewrite fmap_app in Hnd. apply NoDup_app in Hnd as (_ & Hdis & _).
        apply (Hdis (Request.id (request it2))).
        -- apply list_elem_of_fmap. by exists it2.
        -- apply list_elem_of_fmap. exists y. split; [congruence|].
           by apply elem_of_cons; right.
      * subst it2. rewrite fmap_app, fmap_cons in Hnd.
        apply NoDup_app in Hnd as (_ & _ & [Hx _]%NoDup_cons).
        apply Hx. apply list_elem_of_fmap. exists y. split; [congruence|done].
Qed.

Lemma ordered_ids_NoDup (env : Env) (db : DB) (period : string) (prev : list string) :
  NoDup (Request.id <$> requests db) →
  NoDup ((fun it => Request.id (request it)) <$> ordered_candidates env db period prev).
Proof.
  intros Hnd. rewrite ordered_candidates_perm.
  rewrite <- list_fmap_compose.
  assert ((fun it => Request.id (request it)) ∘ score prev
          = Request.id ∘ request) as -> by done.
  rewrite list_fmap_compose, resolved_requests.
  eapply sublist_NoDup; [exact Hnd|]. apply fmap_sublist.
  etransitivity; [apply sublist_filter|].
  unfold accepted_requests, find_many. rewrite drop_0.
  etransitivity; [apply sublist_take|]. apply sublist_filter.
Qed.

(** X26. The final order decides who wins.  When the stored requests have
    pairwise distinct ids and a candidate wins, every candidate of the
    same vehicle type that stands before it in the final order (so with a
    score at least as high) wins too, unless it repeats the resident and
    vehicle type of a candidate standing before itself. *)
Theorem earlier_candidates_win_first (env : Env) (db : DB) (d : LotteryCreate.t)
    (res : LotteryResult.t) (prev : list string) (i j : nat) (x y : Item) :
  result (execute_lottery env db d) = Ok res →
  NoDup (Request.id <$> requests db) →
  _get_previous_period_non_winners db (LotteryCreate.period d) = Ok prev →
  ordered_candidates env db (LotteryCreate.period d) prev !! i = Some x →
  ordered_candidates env db (LotteryCreate.period d) prev !! j = Some y →
  (i < j)%nat →
  Request.vehicle_type (request x) = Request.vehicle_type (request y) →
  Request.id (request y)
    ∈ LotteryParticipantResult.request_id <$> LotteryResult.winners res →
  Request.id (request x)
    ∈ LotteryParticipantResult.request_id <$> LotteryResult.winners res
  ∨ item_pair x
      ∈ item_pair <$> take i (ordered_candidates env db (LotteryCreate.period d) prev).
Proof.
  intros Hres Hnd Hprev Hi Hj Hij Hvt Hwin.
  apply execute_lottery_Ok in Hres as (_ & _ & items & -> & _ & Hitems).
  assert (items = ordered_candidates env db (LotteryCreate.period d) prev) as ->.
  { destruct Hitems as [[Hnone ->]|[prev' [Hprev' ->]]].
    - unfold ordered_candidates, scored_requests in Hi.
      rewrite Hnone in Hi. discriminate Hi.
    - congruence. }
  clear Hitems. simpl in Hwin |- *.
  pose proof (ordered_ids_NoDup env db (LotteryCreate.period d) prev Hnd) as Hids.
  set (items := ordered_candidates env db (LotteryCreate.period d) prev) in *.
  assert (items = take i items ++ x :: drop (S i) items) as Esplit
    by (by rewrite take_drop_middle).
  assert (y ∈ drop (S i) items) as Hy.
  { apply list_elem_of_lookup. exists (j - S i)%nat. rewrite lookup_drop.
    by replace (S i + (j - S i))%nat with j by lia. }
  rewrite Esplit in Hids, Hwin. rewrite Esplit at 1.
  by apply (walk_precedence d _ _ x y).
Qed.

Lemma earlier_candidates_win_first_witness :
  result (execute_lottery Sample.env Sample.july Sample.two_cars)
  = Ok (produced Sample.env Sample.two_cars
          (allocation Sample.two_cars
             (ordered_candidates Sample.env Sample.july "2025-07" [])))
  ∧ ordered_candidates Sample.env Sample.july "2025-07" [] !! 0%nat
    = Some (Build_Item Sample.luis_car Sample.luis 1000)
  ∧ ordered_candidates Sample.env Sample.july "2025-07" [] !! 1%nat
    = Some (Build_Item Sample.ana_car Sample.ana 100)
  ∧ (Request.id Sample.luis_car
       ∈ LotteryParticipantResult.request_id
           <$> winners (allocation Sample.two_cars
                          (ordered_candidates Sample.env Sample.july "2025-07" []))
     ∨ item_pair (Build_Item Sample.luis_car Sample.luis 1000)
         ∈ item_pair
             <$> take 0 (ordered_candidates Sample.env Sample.july "2025-07" [])).
Proof.
  split; [vm_compute; reflexivity|]. split; [vm_compute; reflexivity|].
  split; [vm_compute; reflexivity|].
  apply (earlier_candidates_win_first Sample.env Sample.july Sample.two_cars
           (produced Sample.env Sample.two_cars
              (allocation Sample.two_cars
                 (ordered_candidates Sample.env Sample.july "2025-07" [])))
           [] 0 1
           (Build_Item Sample.luis_car Sample.luis 1000)
           (Build_Item Sample.ana_car Sample.ana 100)).
  - vm_compute. reflexivity.
  - vm_compute. apply (bool_decide_unpack _). vm_compute. reflexivity.
  - vm_compute. reflexivity.
  - vm_compute. reflexivity.
  - vm_compute. reflexivity.
  - lia.
  - reflexivity.
  - vm_compute. apply list_elem_of_further, list_elem_of_here.
Defined.

End Precedence.
